(** * whisper-gui: a shallow embedding of [whisper-gui.py]

    The script is a Tkinter shell around one call into OpenAI Whisper.  The
    embedding has three layers:

    - the pure string work of the script (whitespace stripping, the
      [:.2f] rendering of a float, ["\n".join], [os.path.splitext]);
    - a state-and-exception monad over a [World] that records the file
      system, standard output and every call made into tkinter, whisper and
      the file API, the answers of which come from an environment [Env];
    - the three functions of the script, [transcribe_audio],
      [select_file_and_transcribe] and [main], written in that monad. *)

From Stdlib Require Import ZArith NArith Ascii String List Lia.
From Stdlib Require Import Floats.SpecFloat DecimalPos.
From stdpp Require Import base option list gmap.

Open Scope N_scope.

(** ** Python strings *)

(** A Python [str] is a sequence of Unicode code points. *)
Definition char := N.
Abbreviation str := (list char).

(** String literals of the script, written as Rocq strings. *)
Fixpoint lit (s : string) : str :=
  match s with
  | EmptyString => []
  | String a s' => N_of_ascii a :: lit s'
  end.

Definition LF : char := 10.

(** [str.isspace] on one code point (CPython's [_PyUnicode_IsWhitespace]). *)
Definition isspace (c : char) : bool :=
  ((9 <=? c) && (c <=? 13)) || ((28 <=? c) && (c <=? 32))
  || (c =? 133) || (c =? 160) || (c =? 5760)
  || ((8192 <=? c) && (c <=? 8202))
  || (c =? 8232) || (c =? 8233) || (c =? 8239) || (c =? 8287)
  || (c =? 12288).

Fixpoint lstrip (s : str) : str :=
  match s with
  | c :: s' => if isspace c then lstrip s' else s
  | [] => []
  end.

Definition rstrip (s : str) : str := rev (lstrip (rev s)).

(** [s.strip()] *)
Definition strip (s : str) : str := rstrip (lstrip s).

(** [sep.join(l)] *)
Fixpoint join (sep : str) (l : list str) : str :=
  match l with
  | [] => []
  | [x] => x
  | x :: l' => x ++ sep ++ join sep l'
  end.

(** ** Floats and the [:.2f] format *)

(** A Python [float] is an IEEE 754 binary64 value; [spec_float] gives its
    sign, mantissa and exponent, so that a finite value is exactly
    [m * 2^e]. *)
Definition float := spec_float.

Definition digit (d : N) : char := 48 + d.

Fixpoint uint_str (u : Decimal.uint) : str :=
  match u with
  | Decimal.Nil => []
  | Decimal.D0 u' => digit 0 :: uint_str u'
  | Decimal.D1 u' => digit 1 :: uint_str u'
  | Decimal.D2 u' => digit 2 :: uint_str u'
  | Decimal.D3 u' => digit 3 :: uint_str u'
  | Decimal.D4 u' => digit 4 :: uint_str u'
  | Decimal.D5 u' => digit 5 :: uint_str u'
  | Decimal.D6 u' => digit 6 :: uint_str u'
  | Decimal.D7 u' => digit 7 :: uint_str u'
  | Decimal.D8 u' => digit 8 :: uint_str u'
  | Decimal.D9 u' => digit 9 :: uint_str u'
  end.

(** Decimal digits of a natural number, without leading zeros. *)
Definition str_of_N (n : N) : str := uint_str (N.to_uint n).

(** [num / den] rounded to the nearest integer, ties to even. *)
Definition round_half_even (num den : N) : N :=
  let q := num / den in
  match (2 * (num mod den)) ?= den with
  | Lt => q
  | Gt => q + 1
  | Eq => if N.even q then q else q + 1
  end.

(** The absolute value of [m * 2^e], in hundredths, correctly rounded. *)
Definition hundredths (m : positive) (e : Z) : N :=
  match e with
  | Z0 => 100 * Npos m
  | Zpos p => 100 * Npos m * 2 ^ Npos p
  | Zneg p => round_half_even (100 * Npos m) (2 ^ Npos p)
  end.

Definition sign_str (s : bool) : str := if s then lit "-" else [].

(** Fixed-point rendering of a count of hundredths: integer digits, a point
    and two fractional digits. *)
Definition fixed2 (q : N) : str :=
  str_of_N (q / 100) ++ lit "." ++ [digit (q mod 100 / 10); digit (q mod 10)].

(** [f"{x:.2f}"]: CPython renders the exact binary value, correctly rounded
    to two decimals (ties to even); the sign of a negative value is kept
    even when it rounds to zero. *)
Definition format_2f (x : float) : str :=
  match x with
  | S754_nan => lit "nan"
  | S754_infinity s => sign_str s ++ lit "inf"
  | S754_zero s => sign_str s ++ fixed2 0
  | S754_finite s m e => sign_str s ++ fixed2 (hundredths m e)
  end.

Definition is_digit (c : char) : bool := (48 <=? c) && (c <=? 57).

Definition is_finite (x : float) : bool :=
  match x with
  | S754_zero _ | S754_finite _ _ _ => true
  | _ => false
  end.

(** ** [os.path] *)

(** [os.path] is [posixpath] or [ntpath], which differ here in their
    separators only; the extension separator is a dot in both. *)
Inductive PathModule := posixpath | ntpath.

Definition sep (os_path : PathModule) : char :=
  match os_path with
  | posixpath => 47
  | ntpath => 92
  end.

Definition altsep (os_path : PathModule) : option char :=
  match os_path with
  | posixpath => None
  | ntpath => Some 47
  end.

Definition extsep : char := 46.

(** [s.rfind(c)] for a one-character [c], counting from index [i]: the
    highest index of [c], or [-1]. *)
Fixpoint rfind_from (c : char) (s : str) (i : Z) : Z :=
  match s with
  | [] => (-1)%Z
  | x :: s' =>
      let r := rfind_from c s' (i + 1)%Z in
      if (0 <=? r)%Z then r else if x =? c then i else (-1)%Z
  end.

Definition rfind (s : str) (c : char) : Z := rfind_from c s 0%Z.

(** The loop of [genericpath._splitext] that skips leading dots: it runs
    [n] times from [filenameIndex] and tells whether it met a character
    other than the dot. *)
Fixpoint meets_non_dot (p : str) (filenameIndex : nat) (n : nat) : bool :=
  match n with
  | O => false
  | S n' =>
      if negb (bool_decide (firstn 1 (skipn filenameIndex p) = [extsep]))
      then true
      else meets_non_dot p (S filenameIndex) n'
  end.

(** [os.path.splitext(p)], that is [genericpath._splitext(p, sep, altsep,
    extsep)]. *)
Definition splitext (os_path : PathModule) (p : str) : str * str :=
  let sepIndex := rfind p (sep os_path) in
  let sepIndex :=
    match altsep os_path with
    | Some a => Z.max sepIndex (rfind p a)
    | None => sepIndex
    end in
  let dotIndex := rfind p extsep in
  if (sepIndex <? dotIndex)%Z
     && meets_non_dot p (Z.to_nat (sepIndex + 1)) (Z.to_nat (dotIndex - (sepIndex + 1)))
  then (firstn (Z.to_nat dotIndex) p, skipn (Z.to_nat dotIndex) p)
  else (p, []).

(** ** The transcription result *)

(** What [model.transcribe] returns: a dict with a ["text"] entry and,
    normally, a ["segments"] entry holding a list of dicts with (among others)
    ["start"], ["end"] and ["text"].  The script tests ["segments" in result],
    so the presence of that key is part of the data. *)
Record Segment := {
  seg_start : float;
  seg_end : float;
  seg_text : str;
}.

Record Result := {
  result_text : str;
  result_segments : option (list Segment);
}.

(** ** Configuration *)

(** The two module-level constants of the script. *)
Record Config := {
  MODEL_NAME : str;
  ENABLE_TIMESTAMPS : bool;
}.

Definition script_config : Config :=
  {| MODEL_NAME := lit "turbo"; ENABLE_TIMESTAMPS := true |}.

(** ** Exceptions *)

(** [SystemExit] and [KeyboardInterrupt] derive from [BaseException] only;
    every other exception is an [Exception] of some class, with the text
    that [str(e)] gives. *)
Inductive exn :=
| SystemExit (code : Z)
| KeyboardInterrupt
| Exception (class : string) (message : str).

Definition is_Exception (e : exn) : bool :=
  match e with
  | Exception _ _ => true
  | _ => false
  end.

(** [str(e)] *)
Definition str_exn (e : exn) : str :=
  match e with
  | SystemExit code =>
      match code with
      | Z0 => lit "0"
      | Zpos p => str_of_N (Npos p)
      | Zneg p => lit "-" ++ str_of_N (Npos p)
      end
  | KeyboardInterrupt => []
  | Exception _ message => message
  end.

Inductive outcome (A : Type) :=
| Return (a : A)
| Raise (e : exn).
Arguments Return {A} a.
Arguments Raise {A} e.

(** ** The world outside the script *)

(** Every call the script makes into tkinter, whisper, the file API and
    [print]. *)
Inductive Call :=
| call_askopenfilename (title : str) (filetypes : list (str * str))
| call_showinfo (title message : str)
| call_showerror (title message : str)
| call_load_model (name : str)
| call_transcribe (model audio_path : str) (verbose : bool)
| call_open (path mode encoding : str)
| call_write (path data : str)
| call_close (path : str)
| call_print (text : str)
| call_Tk
| call_title (text : str)
| call_geometry (size : str)
| call_Label (text : str)
| call_Button (text : str) (command : string)
| call_pack (widget : string) (pady : Z)
| call_mainloop.

(** The file system maps a path to the text of the file; [calls] is the
    history of calls, oldest first. *)
Record World := {
  fs : gmap str str;
  stdout : str;
  calls : list Call;
}.

(** The environment answers the calls.  Each answer may depend on the whole
    world, history included, so that two calls with the same arguments need
    not be answered alike; [fault] says whether a call raises. *)
Record Env := {
  fault : Call -> World -> option exn;
  selected_file : World -> str;
  whisper_result : str -> str -> World -> Result;
}.

(** ** The monad of the script: state and exceptions *)

Definition M (A : Type) : Type := World -> outcome A * World.

Definition ret {A} (a : A) : M A := fun w => (Return a, w).

Definition bind {A B} (m : M A) (k : A -> M B) : M B := fun w =>
  match m w with
  | (Return a, w') => k a w'
  | (Raise e, w') => (Raise e, w')
  end.

Definition raise {A} (e : exn) : M A := fun w => (Raise e, w).

Notation "'do' x <- m ; k" := (bind m (fun x => k))
  (at level 60, x name, m at next level, right associativity).
Notation "'run' m ; k" := (bind m (fun _ => k))
  (at level 60, m at next level, right associativity).

(** [try: body / except Exception as e: handler e] *)
Definition try_except {A} (body : M A) (handler : exn -> M A) : M A := fun w =>
  match body w with
  | (Raise e, w') => if is_Exception e then handler e w' else (Raise e, w')
  | r => r
  end.

(** [try: body / finally: cleanup]; an exception of the cleanup replaces
    the outcome of the body. *)
Definition try_finally {A} (body : M A) (cleanup : M unit) : M A := fun w =>
  let '(r, w1) := body w in
  match cleanup w1 with
  | (Return _, w2) => (r, w2)
  | (Raise e, w2) => (Raise e, w2)
  end.

Definition record (c : Call) (w : World) : World :=
  {| fs := fs w; stdout := stdout w; calls := calls w ++ [c] |}.

Definition set_fs (f : gmap str str) (w : World) : World :=
  {| fs := f; stdout := stdout w; calls := calls w |}.

Definition set_stdout (s : str) (w : World) : World :=
  {| fs := fs w; stdout := s; calls := calls w |}.

Section Script.

Variable os_path : PathModule.
Variable cfg : Config.
Variable env : Env.

(** An external call: it is recorded, and raises when the environment says
    so (asked in the world before the call). *)
Definition call (c : Call) : M unit := fun w =>
  match fault env c w with
  | Some e => (Raise e, record c w)
  | None => (Return tt, record c w)
  end.

(** *** tkinter *)

Definition askopenfilename (title : str) (filetypes : list (str * str)) : M str :=
  fun w =>
    match call (call_askopenfilename title filetypes) w with
    | (Return _, w') => (Return (selected_file env w), w')
    | (Raise e, w') => (Raise e, w')
    end.

Definition showinfo (title message : str) : M unit :=
  call (call_showinfo title message).

Definition showerror (title message : str) : M unit :=
  call (call_showerror title message).

(** *** whisper *)

(** [whisper.load_model(name)]: the model object is identified by its
    name. *)
Definition load_model (name : str) : M str :=
  run call (call_load_model name); ret name.

(** [model.transcribe(audio_path, verbose=...)] *)
Definition model_transcribe (model audio_path : str) (verbose : bool) : M Result :=
  fun w =>
    match call (call_transcribe model audio_path verbose) w with
    | (Return _, w') => (Return (whisper_result env model audio_path w), w')
    | (Raise e, w') => (Raise e, w')
    end.

(** *** files and standard output *)

(** [open(path, "w", encoding=...)] creates or truncates the file. *)
Definition open_w (path encoding : str) : M str :=
  run call (call_open path (lit "w") encoding);
  (fun w => (Return path, set_fs (<[path := []]> (fs w)) w)).

(** [f.write(data)] appends to what the file holds since it was opened. *)
Definition write (f data : str) : M unit :=
  run call (call_write f data);
  (fun w => (Return tt, set_fs (<[f := default [] (fs w !! f) ++ data]> (fs w)) w)).

Definition close (f : str) : M unit := call (call_close f).

(** [with open(path, "w", encoding=...) as f: body f] *)
Definition with_open_w {A} (path encoding : str) (body : str -> M A) : M A :=
  do f <- open_w path encoding;
  try_finally (body f) (close f).

(** [print(text)] *)
Definition print (text : str) : M unit :=
  run call (call_print text);
  (fun w => (Return tt, set_stdout (stdout w ++ text ++ [LF]) w)).

(** *** The script *)

Definition help_text : str := lit "Usage: whisper_gui.py [--help]

No command-line arguments are needed for GUI operation:
1. Double-click or run `python whisper_gui.py`.
2. A file dialog will prompt you to select an audio file.
3. The transcript will be written to the same folder with a .txt extension.
".

Definition print_help : M unit := print help_text.

(** The f-string of the loop body: [[start - end] text]. *)
Definition segment_str (seg : Segment) : str :=
  let start_time := seg_start seg in
  let end_time := seg_end seg in
  let text_segment := strip (seg_text seg) in
  lit "[" ++ format_2f start_time ++ lit " - " ++ format_2f end_time
    ++ lit "] " ++ text_segment.

(** The [for] loop, appending one string per segment. *)
Definition transcript_lines (segments : list Segment) : list str :=
  fold_left (fun transcript_with_timestamps seg =>
               transcript_with_timestamps ++ [segment_str seg])
            segments [].

Definition transcribe_audio (audio_path : str) : M str :=
  do model <- load_model (MODEL_NAME cfg);
  do result <- model_transcribe model audio_path false;
  match ENABLE_TIMESTAMPS cfg, result_segments result with
  | true, Some segments => ret (join [LF] (transcript_lines segments))
  | _, _ => ret (result_text result)
  end.

Definition audio_filetypes : list (str * str) :=
  [ (lit "Audio Files",
     lit "*.mp3 *.wav *.m4a *.flac *.aac *.ogg *.wma *.mp4 *.webm *.mov *.mkv");
    (lit "All Files", lit "*.*") ].

(** [base + ".txt"] with [base, _ = os.path.splitext(audio_path)]. *)
Definition output_path_of (audio_path : str) : str :=
  let '(base, _) := splitext os_path audio_path in
  base ++ lit ".txt".

(** The suite of the [try] statement. *)
Definition try_suite (audio_path : str) : M unit :=
  run showinfo (lit "Transcribing")
               (lit "Please wait while the file is transcribed...");
  do transcript <- transcribe_audio audio_path;
  let output_path := output_path_of audio_path in
  run with_open_w output_path (lit "utf-8") (fun f => write f transcript);
  showinfo (lit "Success") (lit "Transcription saved to:" ++ [LF] ++ output_path).

Definition select_file_and_transcribe : M unit :=
  do audio_path <- askopenfilename (lit "Select an Audio File") audio_filetypes;
  match audio_path with
  | [] => ret tt
  | _ => try_except (try_suite audio_path)
                    (fun e => showerror (lit "Error") (str_exn e))
  end.

(** [sys.exit(code)] *)
Definition sys_exit {A} (code : Z) : M A := raise (SystemExit code).

Definition main (sys_argv : list str) : M unit :=
  run (if bool_decide (lit "--help" ∈ sys_argv)
       then run print_help; sys_exit 0
       else ret tt);
  run call call_Tk;
  run call (call_title (lit "Whisper Transcription"));
  run call (call_geometry (lit "300x150"));
  run call (call_Label (lit "Click the button to select an audio file."));
  run call (call_pack "label" 20);
  run call (call_Button (lit "Select Audio File") "select_file_and_transcribe");
  run call (call_pack "btn" 10);
  call call_mainloop.

End Script.

(** ** Sample data *)

Definition empty_world : World := {| fs := ∅; stdout := []; calls := [] |}.

Definition no_fault : Call -> World -> option exn := fun _ _ => None.

(** An environment in which nothing raises, the user selects [file] and
    the model answers [r]. *)
Definition calm_env (file : str) (r : Result) : Env :=
  {| fault := no_fault;
     selected_file := fun _ => file;
     whisper_result := fun _ _ _ => r |}.

(** 0.0, 2.5 and 4.125 seconds. *)
Definition t_0 : float := S754_zero false.
Definition t_2_5 : float := S754_finite false 5 (-1).
Definition t_4_125 : float := S754_finite false 33 (-3).

Definition sample_segments : list Segment :=
  [ {| seg_start := t_0; seg_end := t_2_5; seg_text := lit " Hello world." |};
    {| seg_start := t_2_5; seg_end := t_4_125; seg_text := lit " How are you? " |} ].

Definition sample_result : Result :=
  {| result_text := lit " Hello world. How are you?";
     result_segments := Some sample_segments |}.

Definition sample_path : str := lit "/tmp/a.mp3".

Definition sample_env : Env := calm_env sample_path sample_result.

(** ** Lines of a text *)

(** [s.split("\n")] *)
Fixpoint split_LF (s : str) : list str :=
  match s with
  | [] => [[]]
  | c :: s' =>
      if c =? LF then [] :: split_LF s'
      else match split_LF s' with
           | l :: ls => (c :: l) :: ls
           | [] => [[c]]
           end
  end.

(** The lines of a text whose lines are separated by line feeds; the empty
    text has no line. *)
Definition lines_of (s : str) : list str :=
  match s with
  | [] => []
  | _ => split_LF s
  end.

(** A text with a line feed inside one segment. *)
Definition two_line_segments : list Segment :=
  [ {| seg_start := t_0; seg_end := t_2_5;
       seg_text := lit " la la" ++ [LF] ++ lit "la la " |} ].

Definition two_line_result : Result :=
  {| result_text := lit " la la" ++ [LF] ++ lit "la la ";
     result_segments := Some two_line_segments |}.

(** ** Directories *)

Definition is_sep (os_path : PathModule) (c : char) : bool :=
  (c =? sep os_path) || bool_decide (altsep os_path = Some c).

(** The index of the last separator of a path, or [-1]. *)
Definition last_sep_index (os_path : PathModule) (p : str) : Z :=
  match altsep os_path with
  | Some a => Z.max (rfind p (sep os_path)) (rfind p a)
  | None => rfind p (sep os_path)
  end.

(** The directory part of a path: all of it up to and including its last
    separator (what [os.path.split] takes the directory from). *)
Definition directory_of (os_path : PathModule) (p : str) : str :=
  firstn (Z.to_nat (last_sep_index os_path p + 1)) p.

(** The file name part: what follows the last separator. *)
Definition filename_of (os_path : PathModule) (p : str) : str :=
  skipn (Z.to_nat (last_sep_index os_path p + 1)) p.

(** ** Vocabulary of the statements *)

(** The four dialogs of the handler. *)
Definition dialog_call : Call :=
  call_askopenfilename (lit "Select an Audio File") audio_filetypes.

Definition wait_notice : Call :=
  call_showinfo (lit "Transcribing")
                (lit "Please wait while the file is transcribed...").

Definition success_notice (output_path : str) : Call :=
  call_showinfo (lit "Success")
                (lit "Transcription saved to:" ++ [LF] ++ output_path).

Definition error_notice (e : exn) : Call :=
  call_showerror (lit "Error") (str_exn e).

(** The calls of [main] that build and run the window. *)
Definition window_calls : list Call :=
  [ call_Tk;
    call_title (lit "Whisper Transcription");
    call_geometry (lit "300x150");
    call_Label (lit "Click the button to select an audio file.");
    call_pack "label" 20;
    call_Button (lit "Select Audio File") "select_file_and_transcribe";
    call_pack "btn" 10;
    call_mainloop ].

Definition is_whisper_call (c : Call) : bool :=
  match c with
  | call_load_model _ | call_transcribe _ _ _ => true
  | _ => false
  end.

Definition is_file_call (c : Call) : bool :=
  match c with
  | call_open _ _ _ | call_write _ _ | call_close _ => true
  | _ => false
  end.

Definition is_notice (c : Call) : bool :=
  match c with
  | call_showinfo _ _ | call_showerror _ _ => true
  | _ => false
  end.

Definition is_window_call (c : Call) : bool :=
  match c with
  | call_Tk | call_title _ | call_geometry _ | call_Label _
  | call_Button _ _ | call_pack _ _ | call_mainloop => true
  | _ => false
  end.

(** No call ever raises. *)
Definition never_faults (env : Env) : Prop :=
  forall c w, fault env c w = None.

(** The two whisper calls that the adapter makes from world [w] succeed,
    and the model answers [r]. *)
Definition model_answers (cfg : Config) (env : Env) (audio_path : str)
    (w : World) (r : Result) : Prop :=
  let w1 := record (call_load_model (MODEL_NAME cfg)) w in
  fault env (call_load_model (MODEL_NAME cfg)) w = None
  /\ fault env (call_transcribe (MODEL_NAME cfg) audio_path false) w1 = None
  /\ whisper_result env (MODEL_NAME cfg) audio_path w1 = r.

(** The determinism assumption on the external model: what whisper answers
    depends on the world only through the audio file it is given. *)
Definition whisper_deterministic (env : Env) : Prop :=
  (forall name w w',
      fault env (call_load_model name) w = fault env (call_load_model name) w')
  /\ (forall model audio_path verbose w w',
         fs w !! audio_path = fs w' !! audio_path ->
         fault env (call_transcribe model audio_path verbose) w
         = fault env (call_transcribe model audio_path verbose) w')
  /\ (forall model audio_path w w',
         fs w !! audio_path = fs w' !! audio_path ->
         whisper_result env model audio_path w
         = whisper_result env model audio_path w').

(** The calls made since world [w], given a later world [w']. *)
Definition calls_since (w w' : World) : list Call :=
  skipn (length (calls w)) (calls w').

(** An environment in which the file dialog raises. *)
Definition dialog_fails_env (e : exn) : Env :=
  {| fault := fun c _ =>
       match c with
       | call_askopenfilename _ _ => Some e
       | _ => None
       end;
     selected_file := fun _ => [];
     whisper_result := fun _ _ _ => sample_result |}.

(** An environment in which the user selects [file] and the model raises
    [e] on it. *)
Definition model_fails_env (file : str) (e : exn) : Env :=
  {| fault := fun c _ =>
       match c with
       | call_transcribe _ _ _ => Some e
       | _ => None
       end;
     selected_file := fun _ => file;
     whisper_result := fun _ _ _ => sample_result |}.

Definition TclError : exn :=
  Exception "TclError" (lit "no display name and no $DISPLAY environment variable").

Definition RuntimeError : exn :=
  Exception "RuntimeError" (lit "Failed to load audio").

(** ** The layout of a timestamped line, in the words of the specification *)

(** [t] shows a number with exactly two decimals: an optional sign, one or
    more digits, a point and two digits. *)
Definition two_decimals (t : str) : Prop :=
  exists s ds d1 d2,
    t = sign_str s ++ ds ++ lit "." ++ [d1; d2]
    /\ ds <> []
    /\ Forall (fun c => is_digit c = true) ds
    /\ is_digit d1 = true /\ is_digit d2 = true.

(** [t] is [s] without its leading and trailing whitespace. *)
Definition stripped_of (s t : str) : Prop :=
  (exists l r, s = l ++ t ++ r
               /\ Forall (fun c => isspace c = true) l
               /\ Forall (fun c => isspace c = true) r)
  /\ (forall c, head t = Some c \/ last t = Some c -> isspace c = false).

(** [line] is the line of segment [seg]: [[start - end] text]. *)
Definition timestamp_line (seg : Segment) (line : str) : Prop :=
  exists t,
    line = lit "[" ++ format_2f (seg_start seg) ++ lit " - "
             ++ format_2f (seg_end seg) ++ lit "] " ++ t
    /\ (is_finite (seg_start seg) = true -> two_decimals (format_2f (seg_start seg)))
    /\ (is_finite (seg_end seg) = true -> two_decimals (format_2f (seg_end seg)))
    /\ stripped_of (seg_text seg) t.

(** A world in which the output file of [/tmp/a.mp3] exists already. *)
Definition used_world : World :=
  {| fs := {[ lit "/tmp/a.txt" := lit "old notes" ]};
     stdout := [];
     calls := [] |}.

(** The configuration of the script with timestamps switched off. *)
Definition flat_config : Config :=
  {| MODEL_NAME := lit "turbo"; ENABLE_TIMESTAMPS := false |}.

(** A result with a text and an empty list of segments. *)
Definition silent_result : Result :=
  {| result_text := lit " Thank you."; result_segments := Some [] |}.

Definition FileNotFoundError : exn :=
  Exception "FileNotFoundError" (lit "No such file or directory").

(** A deterministic stand-in for the model: it answers with the text that
    the audio file holds, and raises when there is no such file. *)
Definition reading_env : Env :=
  {| fault := fun c w =>
       match c with
       | call_transcribe _ audio_path _ =>
           match fs w !! audio_path with
           | Some _ => None
           | None => Some FileNotFoundError
           end
       | _ => None
       end;
     selected_file := fun _ => sample_path;
     whisper_result := fun _ audio_path w =>
       {| result_text := default [] (fs w !! audio_path);
          result_segments := None |} |}.

(** A stand-in that is not deterministic: its answer counts the calls made
    so far. *)
Definition moody_env : Env :=
  {| fault := no_fault;
     selected_file := fun _ => sample_path;
     whisper_result := fun _ _ w =>
       {| result_text := str_of_N (N.of_nat (length (calls w)));
          result_segments := None |} |}.

(** A world that holds the audio file. *)
Definition audio_world : World :=
  {| fs := {[ sample_path := lit "la la la" ]};
     stdout := [];
     calls := [] |}.

(** ** Further vocabulary *)

(** The number of line feeds in a text. *)
Fixpoint count_LF (s : str) : nat :=
  match s with
  | [] => 0%nat
  | c :: s' => ((if (c =? LF)%N then 1 else 0) + count_LF s')%nat
  end.

(** The line feeds inside the stripped texts of the segments. *)
Fixpoint inner_line_feeds (segments : list Segment) : nat :=
  match segments with
  | [] => 0%nat
  | seg :: segments' =>
      (count_LF (strip (seg_text seg)) + inner_line_feeds segments')%nat
  end.

(** The characters that [format_2f] writes besides digits: the sign, the
    point and the letters of [nan] and [inf]. *)
Definition is_float_char (c : char) : bool :=
  is_digit c || bool_decide (c ∈ lit "-.nanif").

(** A segment, and the same segment as a model may give it with other
    whitespace around its text. *)
Definition hello_segment : Segment :=
  {| seg_start := t_0; seg_end := t_2_5; seg_text := lit "Hello world." |}.

Definition hello_segment_padded : Segment :=
  {| seg_start := t_0; seg_end := t_2_5;
     seg_text := [9; 32] ++ lit "Hello world." ++ [32; 10] |}.

(** [m] changes no file other than [path], and leaves standard output as
    it is. *)
Definition touches_only {A : Type} (path : str) (m : M A) : Prop :=
  forall w,
    stdout (snd (m w)) = stdout w
    /\ forall q, q <> path -> fs (snd (m w)) !! q = fs w !! q.

(** An environment in which the user selects [file], the model answers [r],
    and the calls that [fails] picks raise [e]. *)
Definition failing_env (file : str) (r : Result) (fails : Call -> bool)
    (e : exn) : Env :=
  {| fault := fun c _ => if fails c then Some e else None;
     selected_file := fun _ => file;
     whisper_result := fun _ _ _ => r |}.

Definition is_open_call (c : Call) : bool :=
  match c with
  | call_open _ _ _ => true
  | _ => false
  end.

Definition is_write_call (c : Call) : bool :=
  match c with
  | call_write _ _ => true
  | _ => false
  end.

Definition is_load_call (c : Call) : bool :=
  match c with
  | call_load_model _ => true
  | _ => false
  end.


Definition PermissionError : exn :=
  Exception "PermissionError" (lit "[Errno 13] Permission denied").

Definition UnicodeEncodeError : exn :=
  Exception "UnicodeEncodeError" (lit "surrogates not allowed").

(** A world in which the user's notes are in a text file. *)
Definition notes_path : str := lit "/home/ann/notes.txt".

Definition notes_world : World :=
  {| fs := {[ notes_path := lit "my notes" ]};
     stdout := [];
     calls := [] |}.



(** * Evaluations *)

(** [f"{0.0:.2f}"], [f"{2.5:.2f}"], and the tie of [4.125], which goes to
    the even hundredth. *)
Example format_2f_samples :
  format_2f t_0 = lit "0.00"
  /\ format_2f t_2_5 = lit "2.50"
  /\ format_2f t_4_125 = lit "4.12"
  /\ format_2f (S754_finite false 3 (-3)) = lit "0.38"
  /\ format_2f (S754_finite true 1 (-10)) = lit "-0.00"
  /\ format_2f (S754_finite false 12345 3) = lit "98760.00"
  /\ format_2f (S754_infinity true) = lit "-inf"
  /\ format_2f S754_nan = lit "nan".
Proof. repeat split. Qed.

Example strip_samples :
  strip (lit "  Hello world. ") = lit "Hello world."
  /\ strip ([9; 160; 12288] ++ lit "a b" ++ [10; 13]) = lit "a b"
  /\ strip (lit "   ") = []
  /\ strip (lit "a" ++ [LF] ++ lit "b") = lit "a" ++ [LF] ++ lit "b".
Proof. repeat split. Qed.

Example splitext_samples :
  splitext posixpath (lit "/a/b.c/foo.MP3") = (lit "/a/b.c/foo", lit ".MP3")
  /\ splitext posixpath (lit "/a/b.c/foo") = (lit "/a/b.c/foo", [])
  /\ splitext posixpath (lit "/a/.hidden") = (lit "/a/.hidden", [])
  /\ splitext posixpath (lit "..foo.x") = (lit "..foo", lit ".x")
  /\ splitext posixpath (lit "foo.tar.gz") = (lit "foo.tar", lit ".gz")
  /\ splitext posixpath (lit "a.") = (lit "a", lit ".")
  /\ splitext ntpath (lit "C:/x.y/foo.wav") = (lit "C:/x.y/foo", lit ".wav")
  /\ splitext ntpath ([67; 58; 92] ++ lit "x.y" ++ [92] ++ lit "foo")
     = ([67; 58; 92] ++ lit "x.y" ++ [92] ++ lit "foo", []).
Proof. repeat split. Qed.

(** A run of the handler on the sample environment. *)
Example handler_sample_run :
  select_file_and_transcribe posixpath script_config sample_env used_world
  = (Return tt,
     {| fs := {[ lit "/tmp/a.txt" :=
                   lit "[0.00 - 2.50] Hello world." ++ [LF]
                   ++ lit "[2.50 - 4.12] How are you?" ]};
        stdout := [];
        calls :=
          [ dialog_call;
            wait_notice;
            call_load_model (lit "turbo");
            call_transcribe (lit "turbo") (lit "/tmp/a.mp3") false;
            call_open (lit "/tmp/a.txt") (lit "w") (lit "utf-8");
            call_write (lit "/tmp/a.txt")
              (lit "[0.00 - 2.50] Hello world." ++ [LF]
               ++ lit "[2.50 - 4.12] How are you?");
            call_close (lit "/tmp/a.txt");
            call_showinfo (lit "Success")
              (lit "Transcription saved to:" ++ [LF] ++ lit "/tmp/a.txt") ] |}).
Proof. vm_compute. reflexivity. Qed.

(** * Properties of the string functions *)

Lemma transcript_lines_from (segments : list Segment) (acc : list str) :
  fold_left (fun transcript_with_timestamps seg =>
               transcript_with_timestamps ++ [segment_str seg])
            segments acc
  = acc ++ map segment_str segments.
Proof.
  revert acc; induction segments as [|seg segments IH]; intros acc; simpl.
  - now rewrite app_nil_r.
  - rewrite IH, <- app_assoc. reflexivity.
Qed.

(** The loop builds the list of the formatted segments, in order. *)
Lemma transcript_lines_map (segments : list Segment) :
  transcript_lines segments = map segment_str segments.
Proof. unfold transcript_lines. now rewrite transcript_lines_from. Qed.

Lemma split_LF_no_LF (x : str) : LF ∉ x -> split_LF x = [x].
Proof.
  induction x as [|c x IH]; intros Hx; simpl; [reflexivity|].
  apply not_elem_of_cons in Hx as [Hc Hx].
  destruct (N.eqb_spec c LF) as [->|_]; [congruence|].
  now rewrite IH.
Qed.

Lemma split_LF_app (x rest : str) :
  LF ∉ x -> split_LF (x ++ LF :: rest) = x :: split_LF rest.
Proof.
  induction x as [|c x IH]; intros Hx; simpl; [reflexivity|].
  apply not_elem_of_cons in Hx as [Hc Hx].
  destruct (N.eqb_spec c LF) as [->|_]; [congruence|].
  now rewrite IH.
Qed.

(** Splitting at line feeds undoes joining with line feeds, for lines that
    hold none. *)
Lemma split_LF_join (ls : list str) :
  ls <> [] -> Forall (fun l => LF ∉ l) ls -> split_LF (join [LF] ls) = ls.
Proof.
  induction ls as [|l ls IH]; intros Hne Hall; [congruence|].
  apply Forall_cons in Hall as [Hl Hall].
  destruct ls as [|l' ls].
  - simpl. now apply split_LF_no_LF.
  - change (join [LF] (l :: l' :: ls)) with (l ++ LF :: join [LF] (l' :: ls)).
    rewrite split_LF_app by assumption.
    now rewrite IH.
Qed.

(** *** [strip] *)

Lemma lstrip_split (s : str) :
  exists l, s = l ++ lstrip s /\ Forall (fun c => isspace c = true) l.
Proof.
  induction s as [|c s [l [Hs Hl]]]; simpl.
  - exists []. split; [reflexivity | constructor].
  - destruct (isspace c) eqn:Hc.
    + exists (c :: l). split; [simpl; congruence | now constructor].
    + exists []. split; [reflexivity | constructor].
Qed.

Lemma lstrip_head (s : str) (c : char) :
  head (lstrip s) = Some c -> isspace c = false.
Proof.
  induction s as [|x s IH]; simpl; [discriminate|].
  destruct (isspace x) eqn:Hx; [assumption|].
  simpl. intros [= <-]. assumption.
Qed.

(** [strip] removes a run of whitespace at each end and nothing else. *)
Lemma strip_split (s : str) :
  exists l r, s = l ++ strip s ++ r
              /\ Forall (fun c => isspace c = true) l
              /\ Forall (fun c => isspace c = true) r.
Proof.
  destruct (lstrip_split s) as [l [Hs Hl]].
  destruct (lstrip_split (rev (lstrip s))) as [r [Hr Hrs]].
  exists l, (rev r). repeat split.
  - unfold strip, rstrip.
    rewrite <- rev_app_distr, <- Hr, rev_involutive. exact Hs.
  - exact Hl.
  - apply Forall_forall. intros c Hc.
    rewrite Forall_forall in Hrs. apply Hrs.
    apply list_elem_of_In. apply list_elem_of_In in Hc.
    now apply in_rev.
Qed.

(** What [strip] returns neither starts nor ends with whitespace. *)
Lemma strip_ends (s : str) (c : char) :
  head (strip s) = Some c \/ last (strip s) = Some c -> isspace c = false.
Proof.
  unfold strip, rstrip. intros [Hh | Hl].
  - destruct (lstrip_split (rev (lstrip s))) as [r [Hr _]].
    assert (Ht : lstrip s = rev (lstrip (rev (lstrip s))) ++ rev r).
    { rewrite <- rev_app_distr, <- Hr. now rewrite rev_involutive. }
    apply (lstrip_head s). rewrite Ht.
    destruct (rev (lstrip (rev (lstrip s)))); [discriminate | exact Hh].
  - apply (lstrip_head (rev (lstrip s))).
    rewrite <- Hl. symmetry.
    rewrite (rev_alt (lstrip (rev (lstrip s)))). apply last_reverse.
Qed.

(** *** [format_2f] *)

Lemma is_digit_digit (d : N) : d < 10 -> is_digit (digit d) = true.
Proof.
  intros Hd. unfold is_digit, digit.
  apply andb_true_intro; split; apply N.leb_le; lia.
Qed.

Lemma uint_str_digits (u : Decimal.uint) :
  Forall (fun c => is_digit c = true) (uint_str u).
Proof.
  induction u; simpl; constructor; try assumption; now apply is_digit_digit.
Qed.

Lemma uint_str_nil (u : Decimal.uint) : uint_str u = [] -> u = Decimal.Nil.
Proof. destruct u; simpl; congruence. Qed.

Lemma str_of_N_nonempty (n : N) : str_of_N n <> [].
Proof.
  unfold str_of_N. intros H. apply uint_str_nil in H.
  destruct n as [|p]; simpl in H; [discriminate|].
  now apply (DecimalPos.Unsigned.to_uint_nonnil p).
Qed.

(** A count of hundredths is rendered as one or more digits, a point and
    exactly two digits. *)
Lemma fixed2_shape (q : N) :
  exists ds d1 d2,
    fixed2 q = ds ++ lit "." ++ [d1; d2]
    /\ ds <> []
    /\ Forall (fun c => is_digit c = true) ds
    /\ is_digit d1 = true /\ is_digit d2 = true.
Proof.
  exists (str_of_N (q / 100)), (digit (q mod 100 / 10)), (digit (q mod 10)).
  split; [reflexivity|]. split; [apply str_of_N_nonempty|].
  split; [apply uint_str_digits|].
  split; apply is_digit_digit.
  - apply N.Div0.div_lt_upper_bound.
    change (10 * 10) with 100. apply N.mod_lt. discriminate.
  - apply N.mod_lt. discriminate.
Qed.

(** A finite float is rendered with exactly two decimals. *)
Lemma format_2f_two_decimals (x : float) :
  is_finite x = true ->
  exists s ds d1 d2,
    format_2f x = sign_str s ++ ds ++ lit "." ++ [d1; d2]
    /\ ds <> []
    /\ Forall (fun c => is_digit c = true) ds
    /\ is_digit d1 = true /\ is_digit d2 = true.
Proof.
  destruct x as [s|s| |s m e]; simpl; try discriminate; intros _.
  - destruct (fixed2_shape 0) as (ds & d1 & d2 & H).
    exists s, ds, d1, d2. destruct H as [-> H]. now split.
  - destruct (fixed2_shape (hundredths m e)) as (ds & d1 & d2 & H).
    exists s, ds, d1, d2. destruct H as [-> H]. now split.
Qed.

(** [round_half_even] is within one half of the exact quotient. *)
Lemma round_half_even_nearest (num den : N) :
  0 < den ->
  2 * (round_half_even num den * den) <= 2 * num + den
  /\ 2 * num <= 2 * (round_half_even num den * den) + den.
Proof.
  intros Hden. unfold round_half_even.
  pose proof (N.div_mod num den ltac:(lia)) as Hdm.
  pose proof (N.mod_lt num den ltac:(lia)) as Hlt.
  set (q := num / den) in *. set (r := num mod den) in *.
  destruct (N.compare_spec (2 * r) den) as [He|Hl|Hg].
  - destruct (N.even q); nia.
  - nia.
  - nia.
Qed.

(** The two decimals of a finite float are those of its exact value
    [m * 2^e], rounded to the nearest hundredth. *)
Lemma hundredths_nearest (m : positive) (e : Z) :
  match e with
  | Zneg p =>
      2 * (hundredths m e * 2 ^ Npos p) <= 2 * (100 * Npos m) + 2 ^ Npos p
      /\ 2 * (100 * Npos m) <= 2 * (hundredths m e * 2 ^ Npos p) + 2 ^ Npos p
  | _ => hundredths m e = 100 * Npos m * 2 ^ Z.to_N e
  end.
Proof.
  destruct e as [|p|p]; simpl hundredths.
  - simpl. lia.
  - reflexivity.
  - apply round_half_even_nearest.
    apply N.neq_0_lt_0. now apply N.pow_nonzero.
Qed.

(** *** Line feeds in the formatted segments *)

Lemma digits_no_LF (ds : str) :
  Forall (fun c => is_digit c = true) ds -> LF ∉ ds.
Proof.
  induction 1 as [|c ds Hc _ IH]; [apply not_elem_of_nil|].
  apply not_elem_of_cons. split; [|exact IH].
  intros <-. discriminate Hc.
Qed.

Lemma sign_str_no_LF (s : bool) : LF ∉ sign_str s.
Proof. destruct s; compute_done. Qed.

Lemma fixed2_no_LF (q : N) : LF ∉ fixed2 q.
Proof.
  destruct (fixed2_shape q) as (ds & d1 & d2 & -> & _ & Hds & H1 & H2).
  rewrite !not_elem_of_app. repeat split.
  - now apply digits_no_LF.
  - compute_done.
  - apply digits_no_LF. now repeat constructor.
Qed.

Lemma format_2f_no_LF (x : float) : LF ∉ format_2f x.
Proof.
  destruct x as [s|s| |s m e]; simpl;
    rewrite ?not_elem_of_app; repeat split;
    auto using sign_str_no_LF, fixed2_no_LF; compute_done.
Qed.

(** A formatted segment holds a line feed only if the stripped text of the
    segment does. *)
Lemma segment_str_no_LF (seg : Segment) :
  LF ∉ strip (seg_text seg) -> LF ∉ segment_str seg.
Proof.
  intros Htext. unfold segment_str.
  rewrite !not_elem_of_app. repeat split;
    auto using format_2f_no_LF; compute_done.
Qed.

Lemma segment_str_nonempty (seg : Segment) : segment_str seg <> [].
Proof. unfold segment_str. simpl. discriminate. Qed.

Lemma join_nonempty (sep : str) (l : str) (ls : list str) :
  l <> [] -> join sep (l :: ls) <> [].
Proof.
  intros Hl. destruct ls; simpl; [assumption|].
  destruct l; [congruence | discriminate].
Qed.

(** The lines of the timestamped transcript are the formatted segments,
    when no stripped segment text holds a line feed. *)
Lemma lines_of_transcript (segments : list Segment) :
  Forall (fun seg => LF ∉ strip (seg_text seg)) segments ->
  lines_of (join [LF] (map segment_str segments)) = map segment_str segments.
Proof.
  intros Hall. destruct segments as [|seg segments]; [reflexivity|].
  unfold lines_of.
  destruct (join [LF] (map segment_str (seg :: segments))) eqn:Hj.
  - exfalso. revert Hj. apply join_nonempty, segment_str_nonempty.
  - rewrite <- Hj. apply split_LF_join; [discriminate|].
    apply Forall_forall. intros line Hline.
    apply list_elem_of_In, in_map_iff in Hline as (seg' & <- & Hin).
    apply segment_str_no_LF.
    rewrite Forall_forall in Hall. now apply Hall, list_elem_of_In.
Qed.

(** * Properties of [os.path.splitext] *)

Lemma elem_of_drop_weaken (c : char) (n : nat) (s : str) :
  c ∈ skipn n s -> c ∈ s.
Proof.
  intros Hin. apply list_elem_of_lookup in Hin as [i Hi].
  rewrite lookup_drop in Hi. apply list_elem_of_lookup. eauto.
Qed.

Lemma rfind_from_cases (c : char) (s : str) (i : Z) :
  (0 <= i)%Z ->
  (rfind_from c s i = (-1)%Z /\ c ∉ s)
  \/ ((i <= rfind_from c s i < i + Z.of_nat (length s))%Z
      /\ s !! Z.to_nat (rfind_from c s i - i) = Some c).
Proof.
  revert i; induction s as [|x s IH]; intros i Hi; simpl rfind_from.
  - left. split; [reflexivity | apply not_elem_of_nil].
  - destruct (IH (i + 1)%Z ltac:(lia)) as [[Hr Hnot] | [Hr Hat]].
    + rewrite Hr. simpl. destruct (N.eqb_spec x c) as [->|Hxc].
      * right. split; [simpl length; lia|].
        now replace (i - i)%Z with 0%Z by lia.
      * left. split; [reflexivity|].
        apply not_elem_of_cons. split; [congruence | assumption].
    + destruct (Z.leb_spec 0 (rfind_from c s (i + 1))) as [_|Hneg]; [|lia].
      right. split; [simpl length; lia|].
      replace (Z.to_nat (rfind_from c s (i + 1) - i))
        with (S (Z.to_nat (rfind_from c s (i + 1) - (i + 1)))) by lia.
      exact Hat.
Qed.

(** No occurrence lies beyond the index that [rfind] returns. *)
Lemma rfind_from_last (c : char) (s : str) (i : Z) (n : nat) :
  (0 <= i)%Z -> (rfind_from c s i < i + Z.of_nat n)%Z -> c ∉ skipn n s.
Proof.
  revert i n; induction s as [|x s IH]; intros i n Hi Hr.
  - rewrite skipn_nil. apply not_elem_of_nil.
  - destruct n as [|n].
    + destruct (rfind_from_cases c (x :: s) i Hi) as [[_ Hnot] | [Hb _]];
        [exact Hnot | lia].
    + simpl skipn. simpl rfind_from in Hr.
      destruct (rfind_from_cases c s (i + 1)%Z ltac:(lia)) as [[Hr' Hnot] | [Hb _]].
      * intros Hin. apply Hnot. eapply elem_of_drop_weaken. exact Hin.
      * destruct (Z.leb_spec 0 (rfind_from c s (i + 1))) as [_|Hneg]; [|lia].
        apply (IH (i + 1)%Z); lia.
Qed.

Lemma rfind_from_app_notin (c : char) (a t : str) (i : Z) :
  c ∉ t -> rfind_from c (a ++ t) i = rfind_from c a i.
Proof.
  intros Ht. revert i; induction a as [|x a IH]; intros i; simpl.
  - induction t as [|y t IHt] in i, Ht |- *; [reflexivity|].
    apply not_elem_of_cons in Ht as [Hy Ht]. simpl.
    rewrite (IHt Ht). simpl.
    destruct (N.eqb_spec y c); [congruence | reflexivity].
  - now rewrite IH.
Qed.

Lemma rfind_from_app_last (c : char) (a b : str) (i : Z) :
  (0 <= i)%Z -> c ∉ b ->
  rfind_from c (a ++ c :: b) i = (i + Z.of_nat (length a))%Z.
Proof.
  intros Hi Hb. revert i Hi; induction a as [|x a IH]; intros i Hi; simpl.
  - destruct (rfind_from_cases c b (i + 1)%Z ltac:(lia)) as [[-> _] | [_ Hat]].
    + simpl. rewrite N.eqb_refl. lia.
    + exfalso. apply Hb. eapply list_elem_of_lookup_2. exact Hat.
  - rewrite IH by lia.
    destruct (Z.leb_spec 0 (i + 1 + Z.of_nat (length a))); lia.
Qed.

Lemma rfind_bounds (p : str) (c : char) :
  (-1 <= rfind p c < Z.of_nat (length p))%Z.
Proof.
  unfold rfind.
  destruct (rfind_from_cases c p 0%Z ltac:(lia)) as [[-> _] | [Hb _]]; lia.
Qed.

Lemma last_sep_index_bounds (os_path : PathModule) (p : str) :
  (-1 <= last_sep_index os_path p < Z.of_nat (length p))%Z.
Proof.
  unfold last_sep_index.
  pose proof (rfind_bounds p (sep os_path)).
  destruct (altsep os_path) as [a|]; [|assumption].
  pose proof (rfind_bounds p a). lia.
Qed.

(** Nothing after the last separator is a separator. *)
Lemma no_sep_after_last (os_path : PathModule) (p : str) (n : nat) :
  (last_sep_index os_path p < Z.of_nat n)%Z ->
  Forall (fun c => is_sep os_path c = false) (skipn n p).
Proof.
  intros Hn. apply Forall_forall. intros c Hc.
  destruct (is_sep os_path c) eqn:Hsep; [exfalso | reflexivity].
  unfold is_sep in Hsep. unfold last_sep_index in Hn.
  apply orb_true_iff in Hsep as [Hs | Ha].
  - apply N.eqb_eq in Hs. subst c.
    apply (rfind_from_last (sep os_path) p 0%Z n); [lia | | exact Hc].
    fold (rfind p (sep os_path)). destruct (altsep os_path); lia.
  - apply bool_decide_eq_true in Ha. rewrite Ha in Hn.
    apply (rfind_from_last c p 0%Z n); [lia | | exact Hc].
    fold (rfind p c). lia.
Qed.

Lemma no_sep_not_elem (os_path : PathModule) (t : str) :
  Forall (fun c => is_sep os_path c = false) t ->
  (sep os_path ∉ t) /\ (forall a, altsep os_path = Some a -> a ∉ t).
Proof.
  intros Ht. rewrite Forall_forall in Ht. split.
  - intros Hin. specialize (Ht _ Hin). unfold is_sep in Ht.
    now rewrite N.eqb_refl in Ht.
  - intros a Ha Hin. specialize (Ht _ Hin). unfold is_sep in Ht.
    rewrite Ha, bool_decide_eq_true_2, orb_true_r in Ht by reflexivity.
    discriminate.
Qed.

Lemma last_sep_index_app (os_path : PathModule) (a t : str) :
  Forall (fun c => is_sep os_path c = false) t ->
  last_sep_index os_path (a ++ t) = last_sep_index os_path a.
Proof.
  intros Ht. apply no_sep_not_elem in Ht as [Hs Ha].
  unfold last_sep_index, rfind.
  rewrite (rfind_from_app_notin (sep os_path)) by assumption.
  destruct (altsep os_path) as [c|]; [|reflexivity].
  rewrite (rfind_from_app_notin c); auto.
Qed.

(** Appending characters that are no separators leaves the directory of a
    path as it is. *)
Lemma directory_of_app (os_path : PathModule) (a t : str) :
  Forall (fun c => is_sep os_path c = false) t ->
  directory_of os_path (a ++ t) = directory_of os_path a.
Proof.
  intros Ht. unfold directory_of. rewrite last_sep_index_app by assumption.
  apply take_app_le.
  pose proof (last_sep_index_bounds os_path a). lia.
Qed.

(** What [splitext] returns: the two parts make up the path, and the
    extension is empty or a dot followed by characters that are neither dots
    nor separators. *)
Lemma splitext_spec (os_path : PathModule) (p base ext : str) :
  splitext os_path p = (base, ext) ->
  p = base ++ ext
  /\ (ext = [] \/ exists e, ext = extsep :: e /\ extsep ∉ e)
  /\ Forall (fun c => is_sep os_path c = false) ext.
Proof.
  unfold splitext. fold (last_sep_index os_path p).
  pose proof (last_sep_index_bounds os_path p) as Hsb.
  pose proof (rfind_from_cases extsep p 0%Z ltac:(lia)) as Hdot.
  pose proof (no_sep_after_last os_path p) as Hseps.
  pose proof (rfind_from_last extsep p 0%Z) as Hlast.
  change (rfind p extsep) with (rfind_from extsep p 0%Z).
  remember (last_sep_index os_path p) as sepIndex eqn:Hs.
  remember (rfind_from extsep p 0%Z) as dotIndex eqn:Hd.
  destruct ((sepIndex <? dotIndex)%Z && _) eqn:Hcond; intros [= <- <-].
  - apply andb_true_iff in Hcond as [Hlt _]. apply Z.ltb_lt in Hlt.
    split; [symmetry; apply firstn_skipn|].
    destruct Hdot as [[Hr _] | [Hb Hat]]; [lia|].
    rewrite Z.sub_0_r in Hat.
    split.
    + right. exists (skipn (S (Z.to_nat dotIndex)) p). split.
      * now apply drop_S.
      * apply Hlast; lia.
    + apply Hseps. lia.
  - split; [now rewrite app_nil_r|]. split; [now left | constructor].
Qed.

Lemma meets_non_dot_true (p : str) (k n j : nat) (c : char) :
  (k <= j < k + n)%nat -> p !! j = Some c -> c <> extsep ->
  meets_non_dot p k n = true.
Proof.
  revert k; induction n as [|n IH]; intros k Hj Hat Hc; [lia|].
  simpl. destruct (negb (bool_decide (firstn 1 (skipn k p) = [extsep]))) eqn:Hk;
    [reflexivity|].
  apply negb_false_iff, bool_decide_eq_true in Hk.
  destruct (decide (j = k)) as [->|Hne].
  - rewrite (drop_S p c k Hat) in Hk. simpl in Hk. congruence.
  - apply IH; [lia | assumption | assumption].
Qed.

Lemma extsep_is_no_sep (os_path : PathModule) : is_sep os_path extsep = false.
Proof. destruct os_path; reflexivity. Qed.

(** [splitext] splits at the dot of the extension, whatever the extension
    is, when the file name has a character other than a dot before it. *)
Lemma splitext_extension (os_path : PathModule) (stem e : str) :
  extsep ∉ e ->
  Forall (fun c => is_sep os_path c = false) e ->
  (exists c, c ∈ filename_of os_path stem /\ c <> extsep) ->
  splitext os_path (stem ++ extsep :: e) = (stem, extsep :: e).
Proof.
  intros Hdot Hsep (c & Hc & Hne).
  unfold splitext. fold (last_sep_index os_path (stem ++ extsep :: e)).
  rewrite last_sep_index_app
    by (constructor; [apply extsep_is_no_sep | assumption]).
  assert (Hd : rfind (stem ++ extsep :: e) extsep = Z.of_nat (length stem)).
  { unfold rfind. rewrite rfind_from_app_last by (lia || assumption). lia. }
  rewrite !Hd.
  pose proof (last_sep_index_bounds os_path stem) as Hb.
  remember (last_sep_index os_path stem) as sepIndex eqn:Hs.
  replace (sepIndex <? Z.of_nat (length stem))%Z with true
    by (symmetry; apply Z.ltb_lt; lia).
  unfold filename_of in Hc. rewrite <- Hs in Hc.
  apply list_elem_of_lookup in Hc as [i Hi]. rewrite lookup_drop in Hi.
  pose proof (lookup_lt_Some _ _ _ Hi) as Hlen.
  rewrite (meets_non_dot_true _ _ _ (Z.to_nat (sepIndex + 1) + i) c);
    [ | lia | now rewrite lookup_app_l | assumption ].
  simpl andb. cbv iota.
  rewrite Nat2Z.id.
  now rewrite take_app_length, drop_app_length.
Qed.

(** * Properties of the script *)

(** Unfolds the script down to the calls, leaving the string literals and
    the worlds folded. *)
Ltac unfold_script :=
  cbv [select_file_and_transcribe try_suite try_except try_finally
       with_open_w open_w write close transcribe_audio load_model
       model_transcribe askopenfilename showinfo showerror print print_help
       call bind ret raise sys_exit main].

Section Adapter.

Variable cfg : Config.
Variable env : Env.
Variable audio_path : str.
Variable w : World.

(** The world after the two whisper calls. *)
Local Abbreviation w_after :=
  (record (call_transcribe (MODEL_NAME cfg) audio_path false)
          (record (call_load_model (MODEL_NAME cfg)) w)).

(** What the adapter returns when the model answers [r]. *)
Lemma transcribe_audio_answers (r : Result) :
  model_answers cfg env audio_path w r ->
  transcribe_audio cfg env audio_path w
  = (Return match ENABLE_TIMESTAMPS cfg, result_segments r with
            | true, Some segments => join [LF] (transcript_lines segments)
            | _, _ => result_text r
            end, w_after).
Proof.
  intros (Hload & Hcall & Hres). unfold_script.
  rewrite Hload. cbv beta iota. rewrite Hcall, Hres.
  destruct (ENABLE_TIMESTAMPS cfg), (result_segments r); reflexivity.
Qed.

(** The adapter raises exactly when one of its two whisper calls does. *)
Lemma transcribe_audio_raises (e : exn) (w' : World) :
  transcribe_audio cfg env audio_path w = (Raise e, w') ->
  (fault env (call_load_model (MODEL_NAME cfg)) w = Some e
   /\ w' = record (call_load_model (MODEL_NAME cfg)) w)
  \/ (fault env (call_transcribe (MODEL_NAME cfg) audio_path false)
            (record (call_load_model (MODEL_NAME cfg)) w) = Some e
      /\ w' = w_after).
Proof.
  unfold_script.
  destruct (fault env (call_load_model (MODEL_NAME cfg)) w) as [e1|] eqn:Hload.
  - intros [= <- <-]. now left.
  - cbv beta iota.
    destruct (fault env (call_transcribe _ _ _) _) as [e2|] eqn:Hcall.
    + intros [= <- <-]. now right.
    + repeat case_match; discriminate.
Qed.

(** Whatever happens, the adapter leaves the file system and standard
    output alone, and makes whisper calls only. *)
Lemma transcribe_audio_frame :
  let w' := snd (transcribe_audio cfg env audio_path w) in
  fs w' = fs w /\ stdout w' = stdout w
  /\ exists new, calls w' = calls w ++ new
                 /\ Forall (fun c => is_whisper_call c = true) new.
Proof.
  unfold_script.
  destruct (fault env (call_load_model (MODEL_NAME cfg)) w) as [e1|].
  - repeat split. exists [call_load_model (MODEL_NAME cfg)].
    split; [reflexivity | now repeat constructor].
  - cbv beta iota.
    assert (Hnew : Forall (fun c => is_whisper_call c = true)
                     [call_load_model (MODEL_NAME cfg);
                      call_transcribe (MODEL_NAME cfg) audio_path false])
      by now repeat constructor.
    destruct (fault env (call_transcribe _ _ _) _) as [e2|].
    + repeat split. eexists. split; [|exact Hnew].
      simpl. now rewrite <- app_assoc.
    + repeat case_match;
        (repeat split; eexists; split; [|exact Hnew]);
        simpl; now rewrite <- app_assoc.
Qed.

End Adapter.

Lemma segment_str_timestamp_line (seg : Segment) :
  timestamp_line seg (segment_str seg).
Proof.
  exists (strip (seg_text seg)). split; [reflexivity|].
  split; [apply format_2f_two_decimals|].
  split; [apply format_2f_two_decimals|].
  split; [apply strip_split | apply strip_ends].
Qed.

(** C1, refuted as stated: with timestamps enabled, a result of one segment
    whose text holds a line feed between two words yields a transcript of
    two lines. *)
Lemma timestamped_line_count_counterexample :
  ENABLE_TIMESTAMPS script_config = true
  /\ result_segments two_line_result = Some two_line_segments
  /\ fst (transcribe_audio script_config
            (calm_env sample_path two_line_result)
            sample_path empty_world)
     = Return (lit "[0.00 - 2.50] la la" ++ [LF] ++ lit "la la")
  /\ length two_line_segments = 1%nat
  /\ lines_of (lit "[0.00 - 2.50] la la" ++ [LF] ++ lit "la la")
     = [lit "[0.00 - 2.50] la la"; lit "la la"].
Proof. repeat split. Qed.

(** C1, amended: with timestamps enabled and segments present, the adapter
    returns the lines of the segments, in order and joined by line feeds;
    the line of a segment is [[start - end] text], with finite times shown
    with two decimals and the text stripped of the whitespace at its ends.
    When no stripped text holds a line feed, the transcript of N segments
    has exactly these N lines. *)
Theorem transcribe_audio_timestamped
    (cfg : Config) (env : Env) (audio_path : str) (w : World)
    (r : Result) (segments : list Segment) :
  ENABLE_TIMESTAMPS cfg = true ->
  model_answers cfg env audio_path w r ->
  result_segments r = Some segments ->
  exists lines,
    fst (transcribe_audio cfg env audio_path w) = Return (join [LF] lines)
    /\ Forall2 timestamp_line segments lines
    /\ (Forall (fun seg => LF ∉ strip (seg_text seg)) segments ->
        lines_of (join [LF] lines) = lines
        /\ length (lines_of (join [LF] lines)) = length segments).
Proof.
  intros Hts Hans Hsegs. exists (map segment_str segments).
  rewrite (transcribe_audio_answers _ _ _ _ _ Hans), Hts, Hsegs.
  rewrite transcript_lines_map. split; [reflexivity|]. split.
  - clear. induction segments as [|seg segs IH]; simpl; constructor;
      [apply segment_str_timestamp_line | exact IH].
  - intros Hno. rewrite lines_of_transcript by assumption.
    split; [reflexivity | apply length_map].
Qed.

Lemma transcribe_audio_timestamped_witness :
  ENABLE_TIMESTAMPS script_config = true
  /\ model_answers script_config sample_env
       sample_path empty_world sample_result
  /\ result_segments sample_result = Some sample_segments
  /\ exists lines,
       fst (transcribe_audio script_config
              sample_env
              sample_path empty_world)
       = Return (join [LF] lines)
       /\ Forall2 timestamp_line sample_segments lines
       /\ (Forall (fun seg => LF ∉ strip (seg_text seg)) sample_segments ->
           lines_of (join [LF] lines) = lines
           /\ length (lines_of (join [LF] lines)) = length sample_segments).
Proof.
  split; [reflexivity|]. split; [repeat split|]. split; [reflexivity|].
  apply (transcribe_audio_timestamped script_config
           sample_env
           sample_path empty_world sample_result sample_segments);
    [reflexivity | repeat split | reflexivity].
Defined.

(** C2: with timestamps off, or when the result has no segments entry, the
    adapter returns the text entry of the result as it is. *)
Theorem transcribe_audio_flat
    (cfg : Config) (env : Env) (audio_path : str) (w : World) (r : Result) :
  model_answers cfg env audio_path w r ->
  ENABLE_TIMESTAMPS cfg = false \/ result_segments r = None ->
  fst (transcribe_audio cfg env audio_path w) = Return (result_text r).
Proof.
  intros Hans Hflat. rewrite (transcribe_audio_answers _ _ _ _ _ Hans).
  destruct Hflat as [-> | ->]; [reflexivity|].
  now destruct (ENABLE_TIMESTAMPS cfg).
Qed.

Lemma transcribe_audio_flat_witness :
  model_answers flat_config sample_env
    sample_path empty_world sample_result
  /\ (ENABLE_TIMESTAMPS flat_config = false
      \/ result_segments sample_result = None)
  /\ fst (transcribe_audio flat_config
            sample_env
            sample_path empty_world)
     = Return (lit " Hello world. How are you?").
Proof.
  split; [repeat split|]. split; [now left|].
  apply (transcribe_audio_flat flat_config
           sample_env
           sample_path empty_world sample_result);
    [repeat split | now left].
Defined.

(** C9: with timestamps enabled, a segments entry that is present and empty
    yields the empty string; the text entry is returned only when the
    segments entry is absent, and a present segments entry decides the
    transcript whatever the text entry holds. *)
Theorem transcribe_audio_empty_segments
    (cfg : Config) (env : Env) (audio_path : str) (w : World) (r : Result) :
  ENABLE_TIMESTAMPS cfg = true ->
  model_answers cfg env audio_path w r ->
  (result_segments r = Some [] ->
   fst (transcribe_audio cfg env audio_path w) = Return [])
  /\ (result_segments r = None ->
      fst (transcribe_audio cfg env audio_path w) = Return (result_text r))
  /\ (forall segments, result_segments r = Some segments ->
      fst (transcribe_audio cfg env audio_path w)
      = Return (join [LF] (map segment_str segments))).
Proof.
  intros Hts Hans. rewrite (transcribe_audio_answers _ _ _ _ _ Hans), Hts.
  repeat split.
  - now intros ->.
  - now intros ->.
  - intros segments ->. now rewrite transcript_lines_map.
Qed.

Lemma transcribe_audio_empty_segments_witness :
  ENABLE_TIMESTAMPS script_config = true
  /\ model_answers script_config (calm_env sample_path silent_result)
       sample_path empty_world silent_result
  /\ result_segments silent_result = Some []
  /\ result_text silent_result <> []
  /\ fst (transcribe_audio script_config
            (calm_env sample_path silent_result)
            sample_path empty_world)
     = Return [].
Proof.
  split; [reflexivity|]. split; [repeat split|]. split; [reflexivity|].
  split; [discriminate|].
  apply (transcribe_audio_empty_segments script_config
           (calm_env sample_path silent_result)
           sample_path empty_world silent_result);
    [reflexivity | repeat split | reflexivity].
Defined.

Lemma fs_record (c : Call) (w : World) : fs (record c w) = fs w.
Proof. reflexivity. Qed.

Lemma transcribe_audio_same_file
    (cfg : Config) (env : Env) (audio_path : str) (w w' : World) :
  whisper_deterministic env ->
  fs w !! audio_path = fs w' !! audio_path ->
  fst (transcribe_audio cfg env audio_path w)
  = fst (transcribe_audio cfg env audio_path w').
Proof.
  intros (Hload & Hcall & Hres) Hfile. unfold_script.
  rewrite (Hload _ w w').
  destruct (fault env (call_load_model (MODEL_NAME cfg)) w'); [reflexivity|].
  cbv beta iota.
  rewrite (Hcall _ _ _ (record (call_load_model (MODEL_NAME cfg)) w)
                 (record (call_load_model (MODEL_NAME cfg)) w'))
    by (rewrite !fs_record; exact Hfile).
  destruct (fault env (call_transcribe _ _ _) _); [reflexivity|].
  rewrite (Hres _ _ (record (call_load_model (MODEL_NAME cfg)) w)
                (record (call_load_model (MODEL_NAME cfg)) w'))
    by (rewrite !fs_record; exact Hfile).
  repeat case_match; reflexivity.
Qed.

(** C7: under the determinism assumption on the external model, two runs of
    the adapter on the same file with the same configuration have the same
    outcome, the same text when they return: in two worlds that hold the
    same audio file, and in particular when the second run follows the
    first. *)
Theorem transcribe_audio_deterministic
    (cfg : Config) (env : Env) (audio_path : str) (w : World) :
  whisper_deterministic env ->
  (forall w', fs w !! audio_path = fs w' !! audio_path ->
     fst (transcribe_audio cfg env audio_path w')
     = fst (transcribe_audio cfg env audio_path w))
  /\ fst (transcribe_audio cfg env audio_path
            (snd (transcribe_audio cfg env audio_path w)))
     = fst (transcribe_audio cfg env audio_path w).
Proof.
  intros Hdet. split.
  - intros w' Hfile. symmetry. now apply transcribe_audio_same_file.
  - symmetry. apply transcribe_audio_same_file; [assumption|].
    destruct (transcribe_audio_frame cfg env audio_path w) as [-> _].
    reflexivity.
Qed.

Lemma reading_env_deterministic : whisper_deterministic reading_env.
Proof.
  repeat split.
  - intros model audio_path verbose w w' Hfile. simpl. now rewrite Hfile.
  - intros model audio_path w w' Hfile. simpl. now rewrite Hfile.
Qed.

Lemma transcribe_audio_deterministic_witness :
  whisper_deterministic reading_env
  /\ fst (transcribe_audio flat_config reading_env sample_path audio_world)
     = Return (lit "la la la")
  /\ fst (transcribe_audio flat_config reading_env sample_path
            (snd (transcribe_audio flat_config reading_env sample_path
                    audio_world)))
     = fst (transcribe_audio flat_config reading_env sample_path audio_world).
Proof.
  split; [exact reading_env_deterministic|]. split; [reflexivity|].
  apply (transcribe_audio_deterministic flat_config reading_env sample_path
           audio_world).
  exact reading_env_deterministic.
Defined.

(** The assumption is needed: the adapter passes on what the model
    answers, so that a model whose answers change from call to call makes
    two runs differ. *)
Lemma moody_model_differs :
  fst (transcribe_audio flat_config moody_env sample_path empty_world)
  = Return (lit "1")
  /\ fst (transcribe_audio flat_config moody_env sample_path
            (snd (transcribe_audio flat_config moody_env sample_path
                    empty_world)))
     = Return (lit "3").
Proof. split; reflexivity. Qed.

Section Handler.

Variable os_path : PathModule.
Variable cfg : Config.
Variable env : Env.

Local Abbreviation handler := (select_file_and_transcribe os_path cfg env).
Local Abbreviation suite := (try_suite os_path cfg env).
Local Abbreviation adapter := (transcribe_audio cfg env).
Local Abbreviation output_path := (output_path_of os_path).

(** The handler up to the [try] statement. *)
Lemma handler_dialog_raises (w : World) (e : exn) :
  fault env dialog_call w = Some e ->
  handler w = (Raise e, record dialog_call w).
Proof.
  intros Hdialog. unfold select_file_and_transcribe, bind, askopenfilename, call.
  fold dialog_call. now rewrite Hdialog.
Qed.

Lemma handler_cancelled (w : World) :
  fault env dialog_call w = None ->
  selected_file env w = [] ->
  handler w = (Return tt, record dialog_call w).
Proof.
  intros Hdialog Hnone.
  unfold select_file_and_transcribe, bind, askopenfilename, call.
  fold dialog_call. now rewrite Hdialog, Hnone.
Qed.

Lemma handler_selected (w : World) (audio_path : str) :
  fault env dialog_call w = None ->
  selected_file env w = audio_path ->
  audio_path <> [] ->
  handler w
  = try_except (suite audio_path)
               (fun e => showerror env (lit "Error") (str_exn e))
               (record dialog_call w).
Proof.
  intros Hdialog Hfile Hsome.
  unfold select_file_and_transcribe, bind, askopenfilename, call.
  fold dialog_call. rewrite Hdialog, Hfile.
  destruct audio_path; [congruence | reflexivity].
Qed.

(** An exception of the adapter leaves the [try] suite as it is, before
    any file is opened. *)
Lemma suite_adapter_raises (audio_path : str) (w1 w3 : World) (e : exn) :
  fault env wait_notice w1 = None ->
  adapter audio_path (record wait_notice w1) = (Raise e, w3) ->
  suite audio_path w1 = (Raise e, w3).
Proof.
  intros Hwait Hraise. unfold try_suite, bind at 1, showinfo, call.
  fold wait_notice. rewrite Hwait. unfold bind at 1. now rewrite Hraise.
Qed.

(** The [try] suite when nothing raises. *)
Lemma suite_succeeds (audio_path : str) (w1 : World) (r : Result) :
  never_faults env ->
  model_answers cfg env audio_path (record wait_notice w1) r ->
  exists transcript,
    adapter audio_path (record wait_notice w1)
    = (Return transcript,
       record (call_transcribe (MODEL_NAME cfg) audio_path false)
         (record (call_load_model (MODEL_NAME cfg)) (record wait_notice w1)))
    /\ suite audio_path w1
       = (Return tt,
          {| fs := <[output_path audio_path := transcript]> (fs w1);
             stdout := stdout w1;
             calls := calls w1
                      ++ [ wait_notice;
                           call_load_model (MODEL_NAME cfg);
                           call_transcribe (MODEL_NAME cfg) audio_path false;
                           call_open (output_path audio_path) (lit "w") (lit "utf-8");
                           call_write (output_path audio_path) transcript;
                           call_close (output_path audio_path);
                           success_notice (output_path audio_path) ] |}).
Proof.
  intros Hcalm Hans.
  pose proof (transcribe_audio_answers _ _ _ _ _ Hans) as Hadapter.
  eexists. split; [exact Hadapter|].
  unfold try_suite, bind at 1, showinfo, call. fold wait_notice.
  rewrite Hcalm. unfold bind at 1. rewrite Hadapter.
  cbv [bind with_open_w open_w write close try_finally call].
  rewrite !Hcalm. unfold success_notice, record, set_fs. cbn [fs stdout calls].
  rewrite lookup_insert_eq, insert_insert_eq. cbn [default app].
  repeat rewrite <- app_assoc. reflexivity.
Qed.

End Handler.

Lemma calls_since_app (w w' : World) (new : list Call) :
  calls w' = calls w ++ new -> calls_since w w' = new.
Proof. intros H. unfold calls_since. rewrite H. apply drop_app_length. Qed.

(** The path that the handler writes to. *)
Lemma output_path_spec (os_path : PathModule) (audio_path : str) :
  exists base ext,
    splitext os_path audio_path = (base, ext)
    /\ audio_path = base ++ ext
    /\ output_path_of os_path audio_path = base ++ lit ".txt"
    /\ (ext = [] \/ exists e, ext = extsep :: e /\ extsep ∉ e)
    /\ Forall (fun c => is_sep os_path c = false) ext.
Proof.
  destruct (splitext os_path audio_path) as [base ext] eqn:Hsplit.
  exists base, ext. destruct (splitext_spec _ _ _ _ Hsplit) as (Hcat & Hext & Hsep).
  unfold output_path_of. rewrite Hsplit. now repeat split.
Qed.

Lemma txt_has_no_sep (os_path : PathModule) :
  Forall (fun c => is_sep os_path c = false) (lit ".txt").
Proof. destruct os_path; repeat constructor. Qed.

(** The output file lies in the directory of the audio file. *)
Lemma output_path_same_directory (os_path : PathModule) (audio_path : str) :
  directory_of os_path (output_path_of os_path audio_path)
  = directory_of os_path audio_path.
Proof.
  destruct (output_path_spec os_path audio_path)
    as (base & ext & _ & Hcat & -> & _ & Hsep).
  rewrite Hcat.
  rewrite !directory_of_app; auto using txt_has_no_sep.
Qed.

(** The handler when a file is selected and nothing raises: the transcript
    is in the output file, whatever that path held before, and the calls
    are the dialog, the notice, the two whisper calls, the three file calls
    and the notice of success. *)
Lemma handler_succeeds
    (os_path : PathModule) (cfg : Config) (env : Env) (w : World)
    (audio_path : str) (r : Result) :
  never_faults env ->
  selected_file env w = audio_path ->
  audio_path <> [] ->
  model_answers cfg env audio_path (record wait_notice (record dialog_call w)) r ->
  exists transcript,
    fst (transcribe_audio cfg env audio_path
           (record wait_notice (record dialog_call w)))
    = Return transcript
    /\ select_file_and_transcribe os_path cfg env w
       = (Return tt,
          {| fs := <[output_path_of os_path audio_path := transcript]> (fs w);
             stdout := stdout w;
             calls := calls w
                      ++ [ dialog_call;
                           wait_notice;
                           call_load_model (MODEL_NAME cfg);
                           call_transcribe (MODEL_NAME cfg) audio_path false;
                           call_open (output_path_of os_path audio_path)
                                     (lit "w") (lit "utf-8");
                           call_write (output_path_of os_path audio_path) transcript;
                           call_close (output_path_of os_path audio_path);
                           success_notice (output_path_of os_path audio_path) ] |}).
Proof.
  intros Hcalm Hfile Hsome Hans.
  destruct (suite_succeeds os_path cfg env audio_path (record dialog_call w) r
              Hcalm Hans) as (transcript & Hadapter & Hsuite).
  exists transcript. split; [now rewrite Hadapter|].
  rewrite (handler_selected os_path cfg env w audio_path (Hcalm _ _) Hfile Hsome).
  unfold try_except. rewrite Hsuite. unfold record. cbn [fs stdout calls].
  now rewrite <- app_assoc.
Qed.

(** C3: the handler writes the transcript to the audio path with its
    extension, as [os.path.splitext] finds it, replaced by [.txt]: whatever
    the extension and its case, in the directory of the audio file, and
    over any file of that name, without a further dialog. *)
Theorem output_path_replaces_extension
    (os_path : PathModule) (cfg : Config) (env : Env) (w : World)
    (audio_path : str) (r : Result) :
  never_faults env ->
  selected_file env w = audio_path ->
  audio_path <> [] ->
  model_answers cfg env audio_path (record wait_notice (record dialog_call w)) r ->
  let out := output_path_of os_path audio_path in
  (exists base ext,
      splitext os_path audio_path = (base, ext)
      /\ audio_path = base ++ ext
      /\ out = base ++ lit ".txt"
      /\ (ext = [] \/ exists e, ext = extsep :: e /\ extsep ∉ e)
      /\ Forall (fun c => is_sep os_path c = false) ext)
  /\ (forall stem e,
        audio_path = stem ++ extsep :: e ->
        extsep ∉ e ->
        Forall (fun c => is_sep os_path c = false) e ->
        (exists c, c ∈ filename_of os_path stem /\ c <> extsep) ->
        out = stem ++ lit ".txt")
  /\ directory_of os_path out = directory_of os_path audio_path
  /\ exists transcript,
       fst (transcribe_audio cfg env audio_path
              (record wait_notice (record dialog_call w)))
       = Return transcript
       /\ select_file_and_transcribe os_path cfg env w
          = (Return tt,
             {| fs := <[out := transcript]> (fs w);
                stdout := stdout w;
                calls := calls w
                         ++ [ dialog_call;
                              wait_notice;
                              call_load_model (MODEL_NAME cfg);
                              call_transcribe (MODEL_NAME cfg) audio_path false;
                              call_open out (lit "w") (lit "utf-8");
                              call_write out transcript;
                              call_close out;
                              success_notice out ] |}).
Proof.
  intros Hcalm Hfile Hsome Hans out.
  split; [apply output_path_spec|].
  split.
  { intros stem e -> Hdot Hsep Hname. unfold out, output_path_of.
    now rewrite splitext_extension. }
  split; [apply output_path_same_directory|].
  now apply (handler_succeeds os_path cfg env w audio_path r).
Qed.

Lemma output_path_replaces_extension_witness :
  never_faults sample_env
  /\ selected_file sample_env used_world = sample_path
  /\ sample_path <> []
  /\ model_answers script_config sample_env sample_path
       (record wait_notice (record dialog_call used_world)) sample_result
  /\ fs used_world !! lit "/tmp/a.txt" = Some (lit "old notes")
  /\ output_path_of posixpath sample_path = lit "/tmp/a.txt"
  /\ fs (snd (select_file_and_transcribe posixpath script_config sample_env
                used_world)) !! lit "/tmp/a.txt"
     = Some (lit "[0.00 - 2.50] Hello world." ++ [LF]
               ++ lit "[2.50 - 4.12] How are you?").
Proof.
  split; [intros c w; reflexivity|]. split; [reflexivity|].
  split; [discriminate|]. split; [repeat split|]. split; [reflexivity|].
  split; [reflexivity|].
  destruct (output_path_replaces_extension posixpath script_config sample_env
              used_world sample_path sample_result)
    as (_ & _ & _ & transcript & Hadapter & Hhandler);
    [intros c w; reflexivity | reflexivity | discriminate | repeat split |].
  rewrite Hhandler. injection Hadapter as <-.
  cbn [snd fs]. apply lookup_insert_eq.
Defined.

(** C6: when the dialog returns the empty path, the handler returns at
    once: the dialog is its only call, so that there is no transcription,
    no file is written and no notice is shown. *)
Theorem cancel_is_silent
    (os_path : PathModule) (cfg : Config) (env : Env) (w : World) :
  fault env dialog_call w = None ->
  selected_file env w = [] ->
  select_file_and_transcribe os_path cfg env w = (Return tt, record dialog_call w)
  /\ fs (snd (select_file_and_transcribe os_path cfg env w)) = fs w
  /\ calls_since w (snd (select_file_and_transcribe os_path cfg env w))
     = [dialog_call]
  /\ Forall (fun c => is_whisper_call c = false /\ is_file_call c = false
                      /\ is_notice c = false)
            (calls_since w (snd (select_file_and_transcribe os_path cfg env w))).
Proof.
  intros Hdialog Hnone.
  rewrite (handler_cancelled os_path cfg env w Hdialog Hnone). cbn [snd].
  rewrite (calls_since_app w (record dialog_call w) [dialog_call]) by reflexivity.
  repeat split. now repeat constructor.
Qed.

Lemma cancel_is_silent_witness :
  fault (calm_env [] sample_result) dialog_call used_world = None
  /\ selected_file (calm_env [] sample_result) used_world = []
  /\ select_file_and_transcribe posixpath script_config
       (calm_env [] sample_result) used_world
     = (Return tt, record dialog_call used_world).
Proof.
  split; [reflexivity|]. split; [reflexivity|].
  apply (cancel_is_silent posixpath script_config (calm_env [] sample_result)
           used_world); reflexivity.
Defined.

(** C8: the adapter changes neither the file system nor standard output
    and makes no call other than the two whisper calls, whatever these
    answer; the calls that open, write and close the output file are made by
    the handler, after the adapter has returned. *)
Theorem adapter_writes_nothing
    (os_path : PathModule) (cfg : Config) (env : Env) (audio_path : str)
    (w : World) :
  (fs (snd (transcribe_audio cfg env audio_path w)) = fs w
   /\ stdout (snd (transcribe_audio cfg env audio_path w)) = stdout w
   /\ Forall (fun c => is_whisper_call c = true /\ is_file_call c = false)
             (calls_since w (snd (transcribe_audio cfg env audio_path w))))
  /\ (forall r,
        never_faults env ->
        selected_file env w = audio_path ->
        audio_path <> [] ->
        model_answers cfg env audio_path
          (record wait_notice (record dialog_call w)) r ->
        exists transcript,
          fst (transcribe_audio cfg env audio_path
                 (record wait_notice (record dialog_call w)))
          = Return transcript
          /\ filter (fun c => is_file_call c = true)
                    (calls_since w
                       (snd (select_file_and_transcribe os_path cfg env w)))
             = [ call_open (output_path_of os_path audio_path) (lit "w") (lit "utf-8");
                 call_write (output_path_of os_path audio_path) transcript;
                 call_close (output_path_of os_path audio_path) ]).
Proof.
  split.
  - destruct (transcribe_audio_frame cfg env audio_path w)
      as (Hfs & Hout & new & Hcalls & Hnew).
    repeat split; try assumption.
    rewrite (calls_since_app _ _ _ Hcalls).
    eapply Forall_impl; [exact Hnew|].
    intros c Hc. split; [assumption|]. now destruct c.
  - intros r Hcalm Hfile Hsome Hans.
    destruct (handler_succeeds os_path cfg env w audio_path r
                Hcalm Hfile Hsome Hans)
      as (transcript & Hadapter & Hhandler).
    exists transcript. split; [assumption|].
    rewrite Hhandler. cbn [snd].
    erewrite calls_since_app by (cbn [calls]; reflexivity).
    reflexivity.
Qed.

Lemma adapter_writes_nothing_witness :
  never_faults sample_env
  /\ selected_file sample_env used_world = sample_path
  /\ sample_path <> []
  /\ model_answers script_config sample_env sample_path
       (record wait_notice (record dialog_call used_world)) sample_result
  /\ fs (snd (transcribe_audio script_config sample_env sample_path used_world))
     = fs used_world
  /\ exists transcript,
       fst (transcribe_audio script_config sample_env sample_path
              (record wait_notice (record dialog_call used_world)))
       = Return transcript
       /\ filter (fun c => is_file_call c = true)
            (calls_since used_world
               (snd (select_file_and_transcribe posixpath script_config
                       sample_env used_world)))
          = [ call_open (output_path_of posixpath sample_path) (lit "w") (lit "utf-8");
              call_write (output_path_of posixpath sample_path) transcript;
              call_close (output_path_of posixpath sample_path) ].
Proof.
  split; [intros c w; reflexivity|]. split; [reflexivity|].
  split; [discriminate|]. split; [repeat split|].
  destruct (adapter_writes_nothing posixpath script_config sample_env
              sample_path used_world) as ((Hfs & _) & Hhandler).
  split; [exact Hfs|].
  apply (Hhandler sample_result);
    [intros c w; reflexivity | reflexivity | discriminate | repeat split].
Defined.

(** C10: when the adapter raises, the handler opens and writes no file: the
    file system at the end of the handler is the one it began with, whether
    the exception is shown as an error or propagates. *)
Theorem adapter_error_leaves_files
    (os_path : PathModule) (cfg : Config) (env : Env) (w : World)
    (audio_path : str) (e : exn) (w3 : World) :
  fault env dialog_call w = None ->
  selected_file env w = audio_path ->
  audio_path <> [] ->
  fault env wait_notice (record dialog_call w) = None ->
  transcribe_audio cfg env audio_path (record wait_notice (record dialog_call w))
  = (Raise e, w3) ->
  fs (snd (select_file_and_transcribe os_path cfg env w)) = fs w
  /\ Forall (fun c => is_file_call c = false)
            (calls_since w (snd (select_file_and_transcribe os_path cfg env w))).
Proof.
  intros Hdialog Hfile Hsome Hwait Hraise.
  rewrite (handler_selected os_path cfg env w audio_path Hdialog Hfile Hsome).
  unfold try_except.
  rewrite (suite_adapter_raises os_path cfg env audio_path _ w3 e Hwait Hraise).
  destruct (transcribe_audio_frame cfg env audio_path
              (record wait_notice (record dialog_call w)))
    as (Hfs & _ & new & Hcalls & Hnew).
  rewrite Hraise in Hfs, Hcalls. cbn [snd] in Hfs, Hcalls.
  assert (Hnofile : Forall (fun c => is_file_call c = false) new).
  { eapply Forall_impl; [exact Hnew|]. intros c Hc. now destruct c. }
  assert (Hw3 : calls w3 = calls w ++ [dialog_call; wait_notice] ++ new).
  { rewrite Hcalls. cbn [record calls]. now rewrite <- !app_assoc. }
  destruct (is_Exception e).
  - unfold showerror, call.
    destruct (fault env _ w3); cbn [snd record fs calls];
      (split; [exact Hfs|]);
      (erewrite calls_since_app
         by (cbn [calls record]; rewrite Hw3, <- ?app_assoc; reflexivity));
      repeat (apply Forall_cons; split; [reflexivity|]);
      (apply Forall_app; split; [exact Hnofile | now repeat constructor]).
  - cbn [snd]. split; [exact Hfs|].
    rewrite (calls_since_app _ _ _ Hw3).
    repeat (apply Forall_cons; split; [reflexivity|]). exact Hnofile.
Qed.

Lemma adapter_error_leaves_files_witness :
  fault (model_fails_env sample_path RuntimeError) dialog_call used_world = None
  /\ selected_file (model_fails_env sample_path RuntimeError) used_world
     = sample_path
  /\ sample_path <> []
  /\ fault (model_fails_env sample_path RuntimeError) wait_notice
       (record dialog_call used_world) = None
  /\ fst (transcribe_audio script_config
            (model_fails_env sample_path RuntimeError) sample_path
            (record wait_notice (record dialog_call used_world)))
     = Raise RuntimeError
  /\ fs (snd (select_file_and_transcribe posixpath script_config
                (model_fails_env sample_path RuntimeError) used_world))
     = fs used_world.
Proof.
  split; [reflexivity|]. split; [reflexivity|]. split; [discriminate|].
  split; [reflexivity|]. split; [reflexivity|].
  eapply (adapter_error_leaves_files posixpath script_config
            (model_fails_env sample_path RuntimeError) used_world sample_path);
    [reflexivity | reflexivity | discriminate | reflexivity | reflexivity].
Defined.

(** *** Exceptions in the handler *)

Lemma bind_raise_inv {A B : Type} (m : M A) (k : A -> M B)
    (w w' : World) (e : exn) :
  bind m k w = (Raise e, w') ->
  m w = (Raise e, w')
  \/ exists a w1, m w = (Return a, w1) /\ k a w1 = (Raise e, w').
Proof.
  unfold bind. destruct (m w) as [[a|e1] w1]; intros H.
  - right. eauto.
  - left. now injection H as -> ->.
Qed.

Lemma call_raise_inv (env : Env) (c : Call) (w w' : World) (e : exn) :
  call env c w = (Raise e, w') -> fault env c w = Some e.
Proof.
  unfold call. destruct (fault env c w); intros [= <- <-]. reflexivity.
Qed.

Lemma with_open_w_write_raise_inv
    (env : Env) (path encoding data : str) (w w' : World) (e : exn) :
  with_open_w env path encoding (fun f => write env f data) w = (Raise e, w') ->
  exists c w0, fault env c w0 = Some e /\ is_file_call c = true.
Proof.
  unfold with_open_w. intros H.
  apply bind_raise_inv in H as [H | (f & w1 & Hopen & H)].
  - unfold open_w in H. apply bind_raise_inv in H as [H | (? & ? & _ & [=])].
    apply call_raise_inv in H. eauto.
  - assert (f = path) as ->.
    { unfold open_w, bind in Hopen. destruct (call env _ w) as [[[]|] ?];
        now inversion Hopen. }
    unfold try_finally in H.
    destruct (write env path data w1) as [body w2] eqn:Hwrite.
    destruct (close env path w2) as [[[]|e2] w3] eqn:Hclose.
    + injection H as -> ->. unfold write in Hwrite.
      apply bind_raise_inv in Hwrite as [Hwrite | (? & ? & _ & [=])].
      apply call_raise_inv in Hwrite. eauto.
    + injection H as -> ->. apply call_raise_inv in Hclose. eauto.
Qed.

(** An exception that leaves the [try] suite was raised by one of its
    calls: a notice, a whisper call or a file call. *)
Lemma suite_raise_is_fault
    (os_path : PathModule) (cfg : Config) (env : Env) (audio_path : str)
    (w1 w' : World) (e : exn) :
  try_suite os_path cfg env audio_path w1 = (Raise e, w') ->
  exists c w0,
    fault env c w0 = Some e
    /\ (is_notice c = true \/ is_whisper_call c = true \/ is_file_call c = true).
Proof.
  unfold try_suite. intros H.
  apply bind_raise_inv in H as [H | ([] & w2 & _ & H)].
  { apply call_raise_inv in H. eauto 6. }
  apply bind_raise_inv in H as [H | (transcript & w3 & _ & H)].
  { apply transcribe_audio_raises in H as [[H _] | [H _]]; eauto 7. }
  apply bind_raise_inv in H as [H | ([] & w4 & _ & H)].
  { apply with_open_w_write_raise_inv in H as (c & w0 & H & Hc). eauto 7. }
  apply call_raise_inv in H. eauto 6.
Qed.

(** The output write: an exception of [open] leaves the suite at once; an
    exception of [write] leaves it after the file, by then truncated, has
    been closed. *)
Lemma suite_open_raises
    (os_path : PathModule) (cfg : Config) (env : Env) (audio_path : str)
    (w1 w3 : World) (transcript : str) (e : exn) :
  fault env wait_notice w1 = None ->
  transcribe_audio cfg env audio_path (record wait_notice w1)
  = (Return transcript, w3) ->
  fault env (call_open (output_path_of os_path audio_path) (lit "w") (lit "utf-8")) w3
  = Some e ->
  try_suite os_path cfg env audio_path w1
  = (Raise e,
     record (call_open (output_path_of os_path audio_path) (lit "w") (lit "utf-8")) w3).
Proof.
  intros Hwait Hadapter Hopen. unfold try_suite, bind at 1, showinfo, call.
  fold wait_notice. rewrite Hwait. unfold bind at 1. rewrite Hadapter.
  cbv [bind with_open_w open_w call]. now rewrite Hopen.
Qed.

Lemma suite_write_raises
    (os_path : PathModule) (cfg : Config) (env : Env) (audio_path : str)
    (w1 w3 : World) (transcript : str) (e : exn) :
  let out := output_path_of os_path audio_path in
  let w4 := set_fs (<[out := []]> (fs w3))
                   (record (call_open out (lit "w") (lit "utf-8")) w3) in
  fault env wait_notice w1 = None ->
  transcribe_audio cfg env audio_path (record wait_notice w1)
  = (Return transcript, w3) ->
  fault env (call_open out (lit "w") (lit "utf-8")) w3 = None ->
  fault env (call_write out transcript) w4 = Some e ->
  fault env (call_close out) (record (call_write out transcript) w4) = None ->
  try_suite os_path cfg env audio_path w1
  = (Raise e, record (call_close out) (record (call_write out transcript) w4)).
Proof.
  intros out w4 Hwait Hadapter Hopen Hwrite Hclose.
  unfold try_suite, bind at 1, showinfo, call.
  fold wait_notice. rewrite Hwait. unfold bind at 1. rewrite Hadapter.
  cbv [bind with_open_w open_w write close try_finally call].
  fold out. rewrite Hopen. cbv beta iota.
  change (set_fs _ (record (call_open out (lit "w") (lit "utf-8")) w3)) with w4.
  rewrite Hwrite. cbv beta iota. now rewrite Hclose.
Qed.

(** C4, refuted as stated: an exception of the file dialog, here the
    [TclError] of a display that is gone, propagates out of the handler,
    and no error notice is shown. *)
Lemma dialog_error_counterexample :
  is_Exception TclError = true
  /\ select_file_and_transcribe posixpath script_config
       (dialog_fails_env TclError) empty_world
     = (Raise TclError, record dialog_call empty_world)
  /\ filter (fun c => is_notice c = true)
       (calls (snd (select_file_and_transcribe posixpath script_config
                      (dialog_fails_env TclError) empty_world)))
     = [].
Proof. repeat split. Qed.

(** Nor does the handler catch what is no [Exception]: a
    [KeyboardInterrupt] during the transcription propagates as well. *)
Lemma keyboard_interrupt_propagates :
  fst (select_file_and_transcribe posixpath script_config
         (model_fails_env sample_path KeyboardInterrupt) empty_world)
  = Raise KeyboardInterrupt.
Proof. reflexivity. Qed.

(** C4, amended: every [Exception] that leaves the [try] suite, raised by
    the notice, the adapter call or the output write, is caught by the
    handler, which shows its message as an error notice and, when that
    notice returns, returns normally.  (The file dialog runs before the
    [try] statement.) *)
Theorem handler_shows_exceptions
    (os_path : PathModule) (cfg : Config) (env : Env) (w : World)
    (audio_path : str) (e : exn) (w' : World) :
  fault env dialog_call w = None ->
  selected_file env w = audio_path ->
  audio_path <> [] ->
  try_suite os_path cfg env audio_path (record dialog_call w) = (Raise e, w') ->
  is_Exception e = true ->
  fault env (error_notice e) w' = None ->
  select_file_and_transcribe os_path cfg env w
  = (Return tt, record (call_showerror (lit "Error") (str_exn e)) w').
Proof.
  intros Hdialog Hfile Hsome Hraise Hexc Hnotice.
  rewrite (handler_selected os_path cfg env w audio_path Hdialog Hfile Hsome).
  unfold try_except. rewrite Hraise, Hexc.
  unfold showerror, call. fold (error_notice e). now rewrite Hnotice.
Qed.

Lemma handler_shows_exceptions_witness :
  fault (model_fails_env sample_path RuntimeError) dialog_call used_world = None
  /\ selected_file (model_fails_env sample_path RuntimeError) used_world
     = sample_path
  /\ sample_path <> []
  /\ fst (try_suite posixpath script_config
            (model_fails_env sample_path RuntimeError) sample_path
            (record dialog_call used_world))
     = Raise RuntimeError
  /\ is_Exception RuntimeError = true
  /\ fst (select_file_and_transcribe posixpath script_config
            (model_fails_env sample_path RuntimeError) used_world)
     = Return tt
  /\ last (calls (snd (select_file_and_transcribe posixpath script_config
                         (model_fails_env sample_path RuntimeError) used_world)))
     = Some (call_showerror (lit "Error") (lit "Failed to load audio")).
Proof.
  split; [reflexivity|]. split; [reflexivity|]. split; [discriminate|].
  split; [reflexivity|]. split; [reflexivity|].
  rewrite (handler_shows_exceptions posixpath script_config
             (model_fails_env sample_path RuntimeError) used_world sample_path
             RuntimeError
             (snd (try_suite posixpath script_config
                     (model_fails_env sample_path RuntimeError) sample_path
                     (record dialog_call used_world))));
    [ | reflexivity | reflexivity | discriminate | reflexivity
      | reflexivity | reflexivity ].
  split; reflexivity.
Defined.

(** X10: when the dialog returns, the environment raises nothing but
    [Exception]s and error notices return, the handler returns normally
    whatever else happens: whichever of its calls raise, none of their
    exceptions leaves the handler. *)
Lemma handler_returns_normally
    (os_path : PathModule) (cfg : Config) (env : Env) (w : World) :
  fault env dialog_call w = None ->
  (forall c w0 e, fault env c w0 = Some e -> is_Exception e = true) ->
  (forall title message w0, fault env (call_showerror title message) w0 = None) ->
  fst (select_file_and_transcribe os_path cfg env w) = Return tt.
Proof.
  intros Hdialog Hexc Hnotice.
  destruct (selected_file env w) as [|c audio_path] eqn:Hfile.
  - now rewrite (handler_cancelled os_path cfg env w Hdialog Hfile).
  - rewrite (handler_selected os_path cfg env w _ Hdialog Hfile) by discriminate.
    unfold try_except.
    destruct (try_suite os_path cfg env (c :: audio_path) (record dialog_call w))
      as [[[]|e] w'] eqn:Hsuite; [reflexivity|].
    apply suite_raise_is_fault in Hsuite as (c' & w0 & Hfault & _).
    rewrite (Hexc _ _ _ Hfault). unfold showerror, call. now rewrite Hnotice.
Qed.

(** *** [main] *)

Lemma main_without_help (env : Env) (sys_argv : list str) (w : World) :
  lit "--help" ∉ sys_argv -> main env sys_argv w = main env [] w.
Proof.
  intros Hno. unfold main.
  rewrite (bool_decide_eq_false_2 _ Hno).
  now rewrite (bool_decide_eq_false_2 (lit "--help" ∈ [])) by apply not_elem_of_nil.
Qed.

Lemma main_windows (env : Env) (w : World) :
  never_faults env ->
  main env [] w
  = (Return tt,
     {| fs := fs w; stdout := stdout w; calls := calls w ++ window_calls |}).
Proof.
  intros Hcalm. unfold main.
  rewrite (bool_decide_eq_false_2 (lit "--help" ∈ [])) by apply not_elem_of_nil.
  cbv [bind ret call]. rewrite !Hcalm. unfold record, window_calls.
  cbn [fs stdout calls]. repeat rewrite <- app_assoc. reflexivity.
Qed.

(** C5: when [--help] is among the arguments, [main] prints the usage text
    and exits with status 0, and makes no window call; with any other
    arguments it does what it does without arguments, which is to build the
    window and run its main loop.  [-h] is one of these other arguments. *)
Theorem main_help_flag (env : Env) (sys_argv : list str) (w : World) :
  (lit "--help" ∈ sys_argv ->
   calls_since w (snd (main env sys_argv w)) = [call_print help_text]
   /\ (fault env (call_print help_text) w = None ->
       main env sys_argv w
       = (Raise (SystemExit 0),
          {| fs := fs w;
             stdout := stdout w ++ help_text ++ [LF];
             calls := calls w ++ [call_print help_text] |})))
  /\ (lit "--help" ∉ sys_argv ->
      main env sys_argv w = main env [] w
      /\ (never_faults env ->
          main env sys_argv w
          = (Return tt,
             {| fs := fs w; stdout := stdout w;
                calls := calls w ++ window_calls |})))
  /\ (forall prog, prog <> lit "--help" ->
      main env [prog; lit "-h"] w = main env [] w).
Proof.
  split; [|split].
  - intros Hhelp. unfold main. rewrite (bool_decide_eq_true_2 _ Hhelp).
    cbv [bind print_help print sys_exit raise call].
    destruct (fault env (call_print help_text) w) eqn:Hprint; cbn [snd]; split.
    + now apply calls_since_app.
    + discriminate.
    + now apply calls_since_app.
    + reflexivity.
  - intros Hno. split; [now apply main_without_help|].
    intros Hcalm. rewrite (main_without_help env sys_argv w Hno).
    now apply main_windows.
  - intros prog Hprog. apply main_without_help.
    rewrite !not_elem_of_cons. repeat split; [congruence | discriminate|].
    apply not_elem_of_nil.
Qed.

Lemma main_help_flag_witness :
  lit "--help" ∈ [lit "whisper_gui.py"; lit "--help"]
  /\ fault sample_env (call_print help_text) empty_world = None
  /\ main sample_env [lit "whisper_gui.py"; lit "--help"] empty_world
     = (Raise (SystemExit 0),
        {| fs := fs empty_world;
           stdout := stdout empty_world ++ help_text ++ [LF];
           calls := calls empty_world ++ [call_print help_text] |})
  /\ (lit "--help" ∉ [lit "whisper_gui.py"; lit "-h"])
  /\ never_faults sample_env
  /\ main sample_env [lit "whisper_gui.py"; lit "-h"] empty_world
     = (Return tt,
        {| fs := fs empty_world; stdout := stdout empty_world;
           calls := calls empty_world ++ window_calls |}).
Proof.
  assert (Hin : lit "--help" ∈ [lit "whisper_gui.py"; lit "--help"])
    by (apply list_elem_of_In; right; left; reflexivity).
  assert (Hout : lit "--help" ∉ [lit "whisper_gui.py"; lit "-h"]).
  { rewrite !not_elem_of_cons. repeat split; try discriminate.
    apply not_elem_of_nil. }
  split; [exact Hin|]. split; [reflexivity|].
  split.
  { destruct (main_help_flag sample_env [lit "whisper_gui.py"; lit "--help"]
                empty_world) as (Hhelp & _).
    destruct (Hhelp Hin) as [_ Hexit]. apply Hexit. reflexivity. }
  split; [exact Hout|]. split; [intros c w; reflexivity|].
  destruct (main_help_flag sample_env [lit "whisper_gui.py"; lit "-h"]
              empty_world) as (_ & Hgui & _).
  destruct (Hgui Hout) as [_ Hwindow]. apply Hwindow. intros c w. reflexivity.
Defined.

(** * Further properties of the transcript *)

Lemma count_LF_app (a b : str) :
  count_LF (a ++ b) = (count_LF a + count_LF b)%nat.
Proof. induction a as [|c a IH]; simpl; [reflexivity | rewrite IH; lia]. Qed.

Lemma count_LF_none (s : str) : LF ∉ s -> count_LF s = 0%nat.
Proof.
  induction s as [|c s IH]; intros Hs; simpl; [reflexivity|].
  apply not_elem_of_cons in Hs as [Hc Hs].
  destruct (N.eqb_spec c LF); [congruence | now rewrite IH].
Qed.

Lemma split_LF_length (s : str) : length (split_LF s) = S (count_LF s).
Proof.
  induction s as [|c s IH]; simpl; [reflexivity|].
  destruct (c =? LF); simpl; [now rewrite IH|].
  destruct (split_LF s); simpl in *; [discriminate | exact IH].
Qed.

Lemma count_LF_segment_str (seg : Segment) :
  count_LF (segment_str seg) = count_LF (strip (seg_text seg)).
Proof.
  unfold segment_str. rewrite !count_LF_app.
  rewrite !(count_LF_none (format_2f _)) by apply format_2f_no_LF.
  reflexivity.
Qed.

Lemma count_LF_join (l : str) (ls : list str) :
  count_LF (join [LF] (l :: ls))
  = (length ls + fold_right (fun x n => count_LF x + n) 0 (l :: ls))%nat.
Proof.
  revert l; induction ls as [|l' ls IH]; intros l.
  - simpl. lia.
  - change (join [LF] (l :: l' :: ls)) with (l ++ LF :: join [LF] (l' :: ls)).
    rewrite count_LF_app. cbn [count_LF]. rewrite IH.
    change (LF =? LF) with true. simpl. lia.
Qed.

Lemma count_LF_lines (segments : list Segment) :
  fold_right (fun x n => count_LF x + n)%nat 0%nat (map segment_str segments)
  = inner_line_feeds segments.
Proof.
  induction segments as [|seg segments IH]; [reflexivity|].
  cbn [map fold_right inner_line_feeds]. now rewrite count_LF_segment_str, IH.
Qed.

(** X1: with timestamps enabled, the number of lines of the transcript is
    the number of segments plus the number of line feeds inside the stripped
    segment texts, and the transcript is empty exactly when there is no
    segment. *)
Theorem transcript_line_count
    (cfg : Config) (env : Env) (audio_path : str) (w : World)
    (r : Result) (segments : list Segment) :
  ENABLE_TIMESTAMPS cfg = true ->
  model_answers cfg env audio_path w r ->
  result_segments r = Some segments ->
  exists text,
    fst (transcribe_audio cfg env audio_path w) = Return text
    /\ length (lines_of text)
       = (length segments + inner_line_feeds segments)%nat
    /\ (text = [] <-> segments = []).
Proof.
  intros Hts Hans Hsegs. exists (join [LF] (map segment_str segments)).
  rewrite (transcribe_audio_answers _ _ _ _ _ Hans), Hts, Hsegs.
  rewrite transcript_lines_map. split; [reflexivity|].
  destruct segments as [|seg segs]; [now split|].
  assert (Hne : join [LF] (map segment_str (seg :: segs)) <> [])
    by apply join_nonempty, segment_str_nonempty.
  split; [|split; [contradiction | discriminate]].
  unfold lines_of.
  destruct (join [LF] (map segment_str (seg :: segs))) eqn:Hj; [contradiction|].
  rewrite <- Hj, split_LF_length.
  change (map segment_str (seg :: segs))
    with (segment_str seg :: map segment_str segs).
  rewrite count_LF_join.
  change (segment_str seg :: map segment_str segs)
    with (map segment_str (seg :: segs)).
  rewrite count_LF_lines, length_map. simpl length. lia.
Qed.

Lemma transcript_line_count_witness :
  ENABLE_TIMESTAMPS script_config = true
  /\ model_answers script_config (calm_env sample_path two_line_result)
       sample_path empty_world two_line_result
  /\ result_segments two_line_result = Some two_line_segments
  /\ exists text,
       fst (transcribe_audio script_config (calm_env sample_path two_line_result)
              sample_path empty_world) = Return text
       /\ length (lines_of text)
          = (length two_line_segments + inner_line_feeds two_line_segments)%nat
       /\ (text = [] <-> two_line_segments = []).
Proof.
  split; [reflexivity|]. split; [repeat split|]. split; [reflexivity|].
  apply (transcript_line_count script_config
           (calm_env sample_path two_line_result) sample_path empty_world
           two_line_result two_line_segments);
    [reflexivity | repeat split | reflexivity].
Defined.

(** *** Whitespace around a segment text *)

Lemma lstrip_spaces_app (l s : str) :
  Forall (fun c => isspace c = true) l -> lstrip (l ++ s) = lstrip s.
Proof.
  induction 1 as [|c l Hc _ IH]; [reflexivity|]. simpl. now rewrite Hc.
Qed.

Lemma lstrip_spaces (s : str) :
  Forall (fun c => isspace c = true) s -> lstrip s = [].
Proof.
  intros Hs. rewrite <- (app_nil_r s). now rewrite lstrip_spaces_app.
Qed.

Lemma lstrip_nil_spaces (s : str) :
  lstrip s = [] -> Forall (fun c => isspace c = true) s.
Proof.
  induction s as [|c s IH]; simpl; [constructor|].
  destruct (isspace c) eqn:Hc; [|discriminate].
  intros Hs. constructor; auto.
Qed.

Lemma lstrip_app_some (s r : str) :
  lstrip s <> [] -> lstrip (s ++ r) = lstrip s ++ r.
Proof.
  induction s as [|c s IH]; simpl; [congruence|].
  destruct (isspace c); [exact IH | reflexivity].
Qed.

Lemma rstrip_app_spaces (t r : str) :
  Forall (fun c => isspace c = true) r -> rstrip (t ++ r) = rstrip t.
Proof.
  intros Hr. unfold rstrip. rewrite rev_app_distr, lstrip_spaces_app; [reflexivity|].
  apply Forall_forall. intros c Hc. rewrite Forall_forall in Hr. apply Hr.
  apply list_elem_of_In. apply list_elem_of_In in Hc. now apply in_rev.
Qed.

(** Whitespace added at the ends of a text does not change what [strip]
    returns. *)
Lemma strip_padding (l t r : str) :
  Forall (fun c => isspace c = true) l ->
  Forall (fun c => isspace c = true) r ->
  strip (l ++ t ++ r) = strip t.
Proof.
  intros Hl Hr. unfold strip. rewrite lstrip_spaces_app by assumption.
  destruct (lstrip t) eqn:Ht.
  - rewrite lstrip_spaces; [reflexivity|].
    apply Forall_app. split; [now apply lstrip_nil_spaces | assumption].
  - rewrite lstrip_app_some by (rewrite Ht; discriminate).
    rewrite Ht. now apply rstrip_app_spaces.
Qed.

(** X2: the whitespace that surrounds the text of a segment does not reach
    the transcript: two segments with the same times whose texts differ
    only in whitespace at the ends have the same line, and stripping a
    stripped text again changes nothing. *)
Theorem segment_padding_ignored (seg : Segment) (l r : str) :
  Forall (fun c => isspace c = true) l ->
  Forall (fun c => isspace c = true) r ->
  segment_str {| seg_start := seg_start seg;
                 seg_end := seg_end seg;
                 seg_text := l ++ seg_text seg ++ r |}
  = segment_str seg
  /\ strip (strip (seg_text seg)) = strip (seg_text seg).
Proof.
  intros Hl Hr. split.
  - unfold segment_str. cbn [seg_start seg_end seg_text].
    now rewrite strip_padding.
  - destruct (strip_split (seg_text seg)) as (l' & r' & Hs & Hl' & Hr').
    rewrite Hs at 2. symmetry. now apply strip_padding.
Qed.

Lemma segment_padding_ignored_witness :
  Forall (fun c => isspace c = true) [9; 32]
  /\ Forall (fun c => isspace c = true) [32; 10]
  /\ segment_str hello_segment_padded = segment_str hello_segment.
Proof.
  split; [now repeat constructor|]. split; [now repeat constructor|].
  apply (segment_padding_ignored hello_segment [9; 32] [32; 10]);
    now repeat constructor.
Defined.

(** *** Reading a line back *)

Lemma format_2f_alphabet (x : float) :
  Forall (fun c => is_float_char c = true) (format_2f x).
Proof.
  assert (Hdigits : forall ds, Forall (fun c => is_digit c = true) ds ->
                               Forall (fun c => is_float_char c = true) ds).
  { intros ds Hds. eapply Forall_impl; [exact Hds|].
    intros c Hc. unfold is_float_char. now rewrite Hc. }
  assert (Hsign : forall s, Forall (fun c => is_float_char c = true) (sign_str s))
    by (intros []; now repeat constructor).
  assert (Hfixed : forall q, Forall (fun c => is_float_char c = true) (fixed2 q)).
  { intros q. destruct (fixed2_shape q) as (ds & d1 & d2 & -> & _ & Hds & H1 & H2).
    apply Forall_app. split; [now apply Hdigits|].
    apply Forall_app. split; [now repeat constructor|].
    apply Hdigits. now repeat constructor. }
  destruct x as [s|s| |s m e]; simpl.
  - apply Forall_app. split; [apply Hsign | apply Hfixed].
  - apply Forall_app. split; [apply Hsign | now repeat constructor].
  - now repeat constructor.
  - apply Forall_app. split; [apply Hsign | apply Hfixed].
Qed.

Lemma format_2f_no_delimiter (x : float) (c : char) :
  c = 32 \/ c = 93 -> c ∉ format_2f x.
Proof.
  intros Hc Hin.
  pose proof (format_2f_alphabet x) as Hall. rewrite Forall_forall in Hall.
  specialize (Hall c Hin). destruct Hc as [-> | ->]; discriminate Hall.
Qed.

Lemma app_cons_unique (c : char) (a a' x x' : str) :
  c ∉ a -> c ∉ a' -> a ++ c :: x = a' ++ c :: x' -> a = a' /\ x = x'.
Proof.
  revert a'; induction a as [|y a IH]; intros a' Ha Ha' Heq.
  - destruct a' as [|y' a']; simpl in Heq.
    + injection Heq as ->. now split.
    + injection Heq as <- _. exfalso. apply Ha'. left.
  - apply not_elem_of_cons in Ha as [Hy Ha].
    destruct a' as [|y' a']; simpl in Heq.
    + injection Heq as -> _. congruence.
    + injection Heq as -> Heq.
      apply not_elem_of_cons in Ha' as [_ Ha'].
      destruct (IH a' Ha Ha' Heq) as [-> ->]. now split.
Qed.

(** X3: a line of the transcript determines its two times as written and
    its text: two segments with the same line have the same rendered start,
    the same rendered end and the same stripped text, whatever the text
    holds. *)
Theorem segment_str_reads_back (a b : Segment) :
  segment_str a = segment_str b ->
  format_2f (seg_start a) = format_2f (seg_start b)
  /\ format_2f (seg_end a) = format_2f (seg_end b)
  /\ strip (seg_text a) = strip (seg_text b).
Proof.
  unfold segment_str.
  change (lit "[") with [91]. change (lit " - ") with [32; 45; 32].
  change (lit "] ") with [93; 32]. cbn [app].
  intros [= Heq].
  apply app_cons_unique in Heq as [Hstart Heq];
    [ | apply format_2f_no_delimiter; now left
      | apply format_2f_no_delimiter; now left ].
  injection Heq as Heq.
  apply app_cons_unique in Heq as [Hend Heq];
    [ | apply format_2f_no_delimiter; now right
      | apply format_2f_no_delimiter; now right ].
  injection Heq as Heq. now repeat split.
Qed.

Lemma segment_str_reads_back_witness :
  segment_str hello_segment_padded = segment_str hello_segment
  /\ strip (seg_text hello_segment_padded) = lit "Hello world.".
Proof.
  split; [reflexivity|].
  destruct (segment_str_reads_back hello_segment_padded hello_segment)
    as (_ & _ & Htext); [reflexivity|].
  rewrite Htext. reflexivity.
Defined.

(** * Further properties of the output path *)

Lemma meets_non_dot_inv (p : str) (k n : nat) :
  meets_non_dot p k n = true ->
  (k + n <= length p)%nat ->
  exists j c, (k <= j < k + n)%nat /\ p !! j = Some c /\ c <> extsep.
Proof.
  revert k; induction n as [|n IH]; intros k; simpl; [discriminate|].
  destruct (negb (bool_decide (firstn 1 (skipn k p) = [extsep]))) eqn:Hk.
  - intros _ Hlen.
    destruct (lookup_lt_is_Some_2 p k ltac:(lia)) as [c Hc].
    exists k, c. split; [lia|]. split; [exact Hc|].
    apply negb_true_iff, bool_decide_eq_false in Hk.
    rewrite (drop_S p c k Hc) in Hk. intros ->. now apply Hk.
  - intros Hmeets Hlen.
    destruct (IH (S k) Hmeets ltac:(lia)) as (j & c & Hj & Hc & Hne).
    exists j, c. split; [lia | now split].
Qed.

(** When [splitext] finds an extension, the file name before it has a
    character other than a dot. *)
Lemma splitext_base_has_name (os_path : PathModule) (p base ext : str) :
  splitext os_path p = (base, ext) ->
  ext <> [] ->
  exists c, c ∈ filename_of os_path base /\ c <> extsep.
Proof.
  intros Hsplit Hext.
  destruct (splitext_spec os_path p base ext Hsplit) as (Hcat & _ & Hsep).
  assert (Hlast : last_sep_index os_path p = last_sep_index os_path base).
  { rewrite Hcat. now apply last_sep_index_app. }
  revert Hsplit. unfold splitext. fold (last_sep_index os_path p).
  pose proof (last_sep_index_bounds os_path base) as Hsb.
  pose proof (rfind_bounds p extsep) as Hdb.
  rewrite Hlast.
  remember (last_sep_index os_path base) as sepIndex eqn:Hs.
  remember (rfind p extsep) as dotIndex eqn:Hd.
  destruct ((sepIndex <? dotIndex)%Z && _) eqn:Hcond; intros [= Hbase Hext'];
    [|congruence].
  apply andb_true_iff in Hcond as [Hlt Hmeets]. apply Z.ltb_lt in Hlt.
  apply meets_non_dot_inv in Hmeets as (j & c & Hj & Hc & Hne); [|lia].
  exists c. split; [|exact Hne].
  unfold filename_of. rewrite <- Hs.
  apply list_elem_of_lookup. exists (j - Z.to_nat (sepIndex + 1))%nat.
  rewrite lookup_drop, <- Hbase, lookup_take_lt by lia.
  now replace (Z.to_nat (sepIndex + 1) + (j - Z.to_nat (sepIndex + 1)))%nat
    with j by lia.
Qed.

(** X4: the output path is the selected path itself exactly when
    [os.path.splitext] gives the selected path the extension [.txt], in
    lower case; a run without exceptions on such a file replaces what the
    selected file held by the transcript. *)
Theorem selected_txt_is_overwritten
    (os_path : PathModule) (cfg : Config) (env : Env) (w : World)
    (audio_path : str) (r : Result) :
  (output_path_of os_path audio_path = audio_path
   <-> snd (splitext os_path audio_path) = lit ".txt")
  /\ (never_faults env ->
      selected_file env w = audio_path ->
      audio_path <> [] ->
      model_answers cfg env audio_path
        (record wait_notice (record dialog_call w)) r ->
      snd (splitext os_path audio_path) = lit ".txt" ->
      exists transcript,
        fst (transcribe_audio cfg env audio_path
               (record wait_notice (record dialog_call w)))
        = Return transcript
        /\ fs (snd (select_file_and_transcribe os_path cfg env w)) !! audio_path
           = Some transcript).
Proof.
  destruct (output_path_spec os_path audio_path)
    as (base & ext & Hsplit & Hcat & Hout & _).
  assert (Hiff : output_path_of os_path audio_path = audio_path
                 <-> snd (splitext os_path audio_path) = lit ".txt").
  { rewrite Hsplit, Hout. cbn [snd]. rewrite Hcat. split.
    - intros H. apply app_inv_head in H. congruence.
    - now intros ->. }
  split; [exact Hiff|].
  intros Hcalm Hfile Hsome Hans Htxt.
  destruct (handler_succeeds os_path cfg env w audio_path r Hcalm Hfile Hsome Hans)
    as (transcript & Hadapter & Hhandler).
  exists transcript. split; [exact Hadapter|].
  rewrite Hhandler. cbn [snd fs].
  apply Hiff in Htxt. rewrite Htxt. apply lookup_insert_eq.
Qed.

Lemma selected_txt_is_overwritten_witness :
  never_faults (calm_env notes_path sample_result)
  /\ selected_file (calm_env notes_path sample_result) notes_world = notes_path
  /\ notes_path <> []
  /\ model_answers script_config (calm_env notes_path sample_result) notes_path
       (record wait_notice (record dialog_call notes_world)) sample_result
  /\ snd (splitext posixpath notes_path) = lit ".txt"
  /\ fs notes_world !! notes_path = Some (lit "my notes")
  /\ fs (snd (select_file_and_transcribe posixpath script_config
                (calm_env notes_path sample_result) notes_world)) !! notes_path
     = Some (lit "[0.00 - 2.50] Hello world." ++ [LF]
               ++ lit "[2.50 - 4.12] How are you?").
Proof.
  split; [intros c w; reflexivity|]. split; [reflexivity|].
  split; [discriminate|]. split; [repeat split|]. split; [reflexivity|].
  split; [reflexivity|].
  destruct (selected_txt_is_overwritten posixpath script_config
              (calm_env notes_path sample_result) notes_world notes_path
              sample_result) as (_ & Hrun).
  destruct Hrun as (transcript & Hadapter & Hfile);
    [intros c w; reflexivity | reflexivity | discriminate | repeat split
     | reflexivity |].
  rewrite Hfile. injection Hadapter as <-. reflexivity.
Defined.

(** X5: when the file name of the selected path has a character other than
    a dot, the output path has the extension [.txt] for [os.path.splitext],
    so that it is its own output path; a name made of dots alone has no
    extension, and neither has the output path made from it. *)
Theorem output_path_is_stable (os_path : PathModule) (audio_path : str) :
  (exists c, c ∈ filename_of os_path audio_path /\ c <> extsep) ->
  snd (splitext os_path (output_path_of os_path audio_path)) = lit ".txt"
  /\ output_path_of os_path (output_path_of os_path audio_path)
     = output_path_of os_path audio_path.
Proof.
  intros Hname.
  destruct (output_path_spec os_path audio_path)
    as (base & ext & Hsplit & Hcat & Hout & _ & Hsep).
  assert (Hbase : exists c, c ∈ filename_of os_path base /\ c <> extsep).
  { destruct ext as [|x ext].
    - rewrite app_nil_r in Hcat. now rewrite <- Hcat.
    - apply (splitext_base_has_name os_path audio_path base (x :: ext));
        [assumption | discriminate]. }
  assert (Hagain : splitext os_path (base ++ extsep :: lit "txt")
                   = (base, extsep :: lit "txt")).
  { apply splitext_extension; [compute_done | | exact Hbase].
    destruct os_path; now repeat constructor. }
  rewrite Hout. change (lit ".txt") with (extsep :: lit "txt").
  unfold output_path_of. now rewrite Hagain.
Qed.

Lemma output_path_is_stable_witness :
  (exists c, c ∈ filename_of posixpath sample_path /\ c <> extsep)
  /\ output_path_of posixpath (output_path_of posixpath sample_path)
     = lit "/tmp/a.txt"
  /\ output_path_of posixpath (lit "/tmp/...") = lit "/tmp/....txt"
  /\ output_path_of posixpath (lit "/tmp/....txt") = lit "/tmp/....txt.txt".
Proof.
  assert (Hname : exists c, c ∈ filename_of posixpath sample_path /\ c <> extsep).
  { exists 97. split; [|discriminate].
    apply list_elem_of_In. left. reflexivity. }
  split; [exact Hname|].
  split; [|split; reflexivity].
  destruct (output_path_is_stable posixpath sample_path Hname) as [_ ->].
  reflexivity.
Defined.

(** * Further properties of the handler *)

(** *** What the handler leaves alone *)

Section Frame.

Variable env : Env.
Variable path : str.

Lemma touches_only_ret {A : Type} (a : A) : touches_only path (ret a).
Proof. intros w. now split. Qed.

Lemma touches_only_call (c : Call) : touches_only path (call env c).
Proof. intros w. unfold call. destruct (fault env c w); now split. Qed.

Lemma touches_only_bind {A B : Type} (m : M A) (k : A -> M B) :
  touches_only path m ->
  (forall a, touches_only path (k a)) ->
  touches_only path (bind m k).
Proof.
  intros Hm Hk w. unfold bind. specialize (Hm w).
  destruct (m w) as [[a|e] w1]; cbn [snd] in *; [|exact Hm].
  destruct Hm as [Hout Hfs]. destruct (Hk a w1) as [Hout' Hfs'].
  split; [congruence|]. intros q Hq. now rewrite Hfs', Hfs.
Qed.

Lemma touches_only_try_except {A : Type} (body : M A) (handler : exn -> M A) :
  touches_only path body ->
  (forall e, touches_only path (handler e)) ->
  touches_only path (try_except body handler).
Proof.
  intros Hbody Hhandler w. unfold try_except. specialize (Hbody w).
  destruct (body w) as [[a|e] w1]; cbn [snd] in *; [exact Hbody|].
  destruct (is_Exception e); [|exact Hbody].
  destruct Hbody as [Hout Hfs]. destruct (Hhandler e w1) as [Hout' Hfs'].
  split; [congruence|]. intros q Hq. now rewrite Hfs', Hfs.
Qed.

Lemma touches_only_try_finally {A : Type} (body : M A) (cleanup : M unit) :
  touches_only path body ->
  touches_only path cleanup ->
  touches_only path (try_finally body cleanup).
Proof.
  intros Hbody Hcleanup w. unfold try_finally. specialize (Hbody w).
  destruct (body w) as [r w1]. cbn [snd] in *.
  specialize (Hcleanup w1).
  destruct (cleanup w1) as [[[]|e] w2]; cbn [snd] in *;
    destruct Hbody as [Hout Hfs]; destruct Hcleanup as [Hout' Hfs'];
    (split; [congruence|]); intros q Hq; now rewrite Hfs', Hfs.
Qed.

Lemma touches_only_open_w (encoding : str) :
  touches_only path (open_w env path encoding).
Proof.
  unfold open_w. apply touches_only_bind; [apply touches_only_call|].
  intros _ w. cbn [snd set_fs fs stdout]. split; [reflexivity|].
  intros q Hq. now apply lookup_insert_ne.
Qed.

Lemma touches_only_write (data : str) :
  touches_only path (write env path data).
Proof.
  unfold write. apply touches_only_bind; [apply touches_only_call|].
  intros _ w. cbn [snd set_fs fs stdout]. split; [reflexivity|].
  intros q Hq. now apply lookup_insert_ne.
Qed.

Lemma touches_only_adapter (cfg : Config) (audio_path : str) :
  touches_only path (transcribe_audio cfg env audio_path).
Proof.
  intros w. destruct (transcribe_audio_frame cfg env audio_path w)
    as (Hfs & Hout & _).
  split; [exact Hout|]. intros q _. now rewrite Hfs.
Qed.

End Frame.

Lemma touches_only_with_open_w (env : Env) (path encoding data : str) :
  touches_only path
    (with_open_w env path encoding (fun f => write env f data)).
Proof.
  intros w.
  destruct (fault env (call_open path (lit "w") encoding) w) as [e|] eqn:Hopen.
  - assert (Hrun : with_open_w env path encoding (fun f => write env f data) w
                   = (Raise e, record (call_open path (lit "w") encoding) w))
      by (unfold with_open_w, open_w, bind, call; now rewrite Hopen).
    rewrite Hrun. now split.
  - set (w1 := set_fs (<[path:=[]]> (fs w))
                      (record (call_open path (lit "w") encoding) w)).
    assert (Hrun : with_open_w env path encoding (fun f => write env f data) w
                   = try_finally (write env path data) (close env path) w1)
      by (unfold with_open_w, open_w, bind, call; now rewrite Hopen).
    rewrite Hrun.
    destruct (touches_only_try_finally path
                (write env path data) (close env path)
                (touches_only_write env path data)
                (touches_only_call env path (call_close path)) w1)
      as [Hout Hfs].
    split; [exact Hout|].
    intros q Hq. rewrite (Hfs q Hq). unfold w1. cbn [set_fs fs].
    now apply lookup_insert_ne.
Qed.

Lemma touches_only_suite
    (os_path : PathModule) (cfg : Config) (env : Env) (audio_path : str) :
  touches_only (output_path_of os_path audio_path)
               (try_suite os_path cfg env audio_path).
Proof.
  unfold try_suite.
  apply touches_only_bind; [apply touches_only_call|]. intros _.
  apply touches_only_bind; [apply touches_only_adapter|]. intros transcript.
  apply touches_only_bind; [|intros _; apply touches_only_call].
  apply touches_only_with_open_w.
Qed.

(** X6: whatever the dialog and the model answer and whichever calls raise,
    the handler writes nothing to standard output and changes no file other
    than the output path of the selected file. *)
Theorem handler_changes_only_output
    (os_path : PathModule) (cfg : Config) (env : Env) (w : World) (q : str) :
  stdout (snd (select_file_and_transcribe os_path cfg env w)) = stdout w
  /\ (q <> output_path_of os_path (selected_file env w) ->
      fs (snd (select_file_and_transcribe os_path cfg env w)) !! q = fs w !! q).
Proof.
  destruct (fault env dialog_call w) as [e|] eqn:Hdialog.
  { rewrite (handler_dialog_raises os_path cfg env w e Hdialog). now split. }
  destruct (selected_file env w) as [|c audio_path] eqn:Hfile.
  { rewrite (handler_cancelled os_path cfg env w Hdialog Hfile). now split. }
  rewrite (handler_selected os_path cfg env w (c :: audio_path) Hdialog Hfile)
    by discriminate.
  destruct (touches_only_try_except
              (output_path_of os_path (c :: audio_path))
              (try_suite os_path cfg env (c :: audio_path))
              (fun e => showerror env (lit "Error") (str_exn e))
              (touches_only_suite os_path cfg env (c :: audio_path))
              (fun e => touches_only_call env _
                          (call_showerror (lit "Error") (str_exn e)))
              (record dialog_call w))
    as [Hout Hfs].
  split; [exact Hout|]. intros Hq. now rewrite (Hfs q Hq).
Qed.

Lemma handler_changes_only_output_witness :
  lit "/tmp/b.txt" <> output_path_of posixpath (selected_file sample_env used_world)
  /\ fs (snd (select_file_and_transcribe posixpath script_config sample_env
                (set_fs (<[lit "/tmp/b.txt" := lit "other notes"]> (fs used_world))
                        used_world))) !! lit "/tmp/b.txt"
     = Some (lit "other notes").
Proof.
  split; [discriminate|].
  destruct (handler_changes_only_output posixpath script_config sample_env
              (set_fs (<[lit "/tmp/b.txt" := lit "other notes"]> (fs used_world))
                      used_world) (lit "/tmp/b.txt")) as [_ Hfs].
  rewrite Hfs; [reflexivity | discriminate].
Defined.

(** *** The notice of success *)

(** Refutes that a call is among a few calls that are written out. *)
Ltac no_such_call H :=
  repeat (apply elem_of_cons in H as [H | H]; [discriminate H|]);
  now apply elem_of_nil in H.

(** Opening, writing, closing and the notice that follows: the notice is
    called only when the file holds the data. *)
Lemma save_then_notice (env : Env) (out data title message : str) (w3 : World) :
  exists l,
    calls (snd (bind (with_open_w env out (lit "utf-8")
                        (fun f => write env f data))
                     (fun _ => showinfo env title message) w3))
    = calls w3 ++ l
    /\ Forall (fun c => is_whisper_call c = false) l
    /\ (call_showinfo title message ∈ l ->
        fs (snd (bind (with_open_w env out (lit "utf-8")
                         (fun f => write env f data))
                      (fun _ => showinfo env title message) w3)) !! out
        = Some data).
Proof.
  cbv [bind with_open_w open_w write close try_finally showinfo call].
  destruct (fault env (call_open out (lit "w") (lit "utf-8")) w3).
  { eexists. split; [reflexivity|]. split; [now repeat constructor|].
    intros H. no_such_call H. }
  cbv beta iota.
  destruct (fault env (call_write out data) _); cbv beta iota.
  { destruct (fault env (call_close out) _); cbn [snd calls record set_fs];
      (eexists; split; [rewrite <- !app_assoc; reflexivity|]);
      (split; [now repeat constructor|]); intros H; no_such_call H. }
  destruct (fault env (call_close out) _); cbv beta iota.
  { cbn [snd calls record set_fs].
    eexists; split; [rewrite <- !app_assoc; reflexivity|].
    split; [now repeat constructor|]. intros H. no_such_call H. }
  destruct (fault env (call_showinfo title message) _);
    cbn [snd calls fs record set_fs];
    (eexists; split; [rewrite <- !app_assoc; reflexivity|]);
    (split; [now repeat constructor|]); intros _;
    rewrite lookup_insert_eq, lookup_insert_eq; reflexivity.
Qed.

Lemma suite_wait_raises
    (os_path : PathModule) (cfg : Config) (env : Env) (audio_path : str)
    (w1 : World) (e : exn) :
  fault env wait_notice w1 = Some e ->
  try_suite os_path cfg env audio_path w1 = (Raise e, record wait_notice w1).
Proof.
  intros Hwait. unfold try_suite, bind at 1, showinfo, call.
  fold wait_notice. now rewrite Hwait.
Qed.

Lemma suite_after_adapter
    (os_path : PathModule) (cfg : Config) (env : Env) (audio_path : str)
    (w1 w3 : World) (transcript : str) :
  fault env wait_notice w1 = None ->
  transcribe_audio cfg env audio_path (record wait_notice w1)
  = (Return transcript, w3) ->
  try_suite os_path cfg env audio_path w1
  = bind (with_open_w env (output_path_of os_path audio_path) (lit "utf-8")
            (fun f => write env f transcript))
         (fun _ => showinfo env (lit "Success")
                     (lit "Transcription saved to:" ++ [LF]
                      ++ output_path_of os_path audio_path)) w3.
Proof.
  intros Hwait Hadapter. unfold try_suite, bind at 1, showinfo at 1, call.
  fold wait_notice. rewrite Hwait. unfold bind at 1. now rewrite Hadapter.
Qed.

Lemma whisper_calls_no_notice (new : list Call) (title message : str) :
  Forall (fun c => is_whisper_call c = true) new ->
  call_showinfo title message ∉ new.
Proof.
  intros Hnew Hin. rewrite Forall_forall in Hnew.
  specialize (Hnew _ Hin). discriminate Hnew.
Qed.

(** X7: the notice of success is called only after the output file has been
    written and closed without an exception: whenever it is among the calls
    of the handler, the adapter had returned a transcript and the output
    file holds that transcript. *)
Theorem success_notice_means_saved
    (os_path : PathModule) (cfg : Config) (env : Env) (w : World) :
  success_notice (output_path_of os_path (selected_file env w))
    ∈ calls_since w (snd (select_file_and_transcribe os_path cfg env w)) ->
  exists transcript,
    fst (transcribe_audio cfg env (selected_file env w)
           (record wait_notice (record dialog_call w)))
    = Return transcript
    /\ fs (snd (select_file_and_transcribe os_path cfg env w))
         !! output_path_of os_path (selected_file env w)
       = Some transcript.
Proof.
  destruct (fault env dialog_call w) as [e|] eqn:Hdialog.
  { rewrite (handler_dialog_raises os_path cfg env w e Hdialog). cbn [snd].
    rewrite (calls_since_app w _ [dialog_call]) by reflexivity.
    intros H. no_such_call H. }
  destruct (selected_file env w) as [|c audio_path] eqn:Hfile.
  { rewrite (handler_cancelled os_path cfg env w Hdialog Hfile). cbn [snd].
    rewrite (calls_since_app w _ [dialog_call]) by reflexivity.
    intros H. no_such_call H. }
  rewrite (handler_selected os_path cfg env w (c :: audio_path) Hdialog Hfile)
    by discriminate.
  set (p := c :: audio_path). set (out := output_path_of os_path p).
  set (w1 := record dialog_call w).
  (* the suite *)
  assert (Hsuite : exists l,
             calls (snd (try_suite os_path cfg env p w1)) = calls w1 ++ l
             /\ (success_notice out ∈ l ->
                 exists transcript,
                   fst (transcribe_audio cfg env p (record wait_notice w1))
                   = Return transcript
                   /\ fs (snd (try_suite os_path cfg env p w1)) !! out
                      = Some transcript)).
  { destruct (fault env wait_notice w1) as [e|] eqn:Hwait.
    { rewrite (suite_wait_raises os_path cfg env p w1 e Hwait).
      exists [wait_notice]. split; [reflexivity|]. intros H. no_such_call H. }
    destruct (transcribe_audio_frame cfg env p (record wait_notice w1))
      as (_ & _ & new & Hnew & Hwhisper).
    destruct (transcribe_audio cfg env p (record wait_notice w1))
      as [[transcript|e] w3] eqn:Hadapter; cbn [snd] in Hnew.
    - rewrite (suite_after_adapter os_path cfg env p w1 w3 transcript
                 Hwait Hadapter).
      fold out.
      destruct (save_then_notice env out transcript (lit "Success")
                  (lit "Transcription saved to:" ++ [LF] ++ out) w3)
        as (l & Hcalls & _ & Hsaved).
      exists ([wait_notice] ++ new ++ l). split.
      + rewrite Hcalls, Hnew. cbn [calls record]. now rewrite <- !app_assoc.
      + intros Hin. exists transcript. split; [reflexivity|].
        apply Hsaved.
        apply elem_of_app in Hin as [Hin | Hin]; [no_such_call Hin|].
        apply elem_of_app in Hin as [Hin | Hin]; [|exact Hin].
        now apply whisper_calls_no_notice in Hin.
    - rewrite (suite_adapter_raises os_path cfg env p w1 w3 e Hwait Hadapter).
      exists ([wait_notice] ++ new). split.
      + cbn [snd]. rewrite Hnew. cbn [calls record]. now rewrite <- !app_assoc.
      + intros Hin.
        apply elem_of_app in Hin as [Hin | Hin]; [no_such_call Hin|].
        now apply whisper_calls_no_notice in Hin. }
  destruct Hsuite as (l & Hcalls & Hsaved).
  unfold try_except.
  destruct (try_suite os_path cfg env p w1) as [[[]|e] w'] eqn:Hrun;
    cbn [snd] in *.
  - assert (Hw' : calls w' = calls w ++ [dialog_call] ++ l)
      by (rewrite Hcalls; unfold w1; cbn [calls record]; now rewrite <- app_assoc).
    rewrite (calls_since_app w w' _ Hw').
    intros Hin. apply Hsaved.
    apply elem_of_app in Hin as [Hin | Hin]; [no_such_call Hin | exact Hin].
  - assert (Hw' : calls w' = calls w ++ [dialog_call] ++ l)
      by (rewrite Hcalls; unfold w1; cbn [calls record]; now rewrite <- app_assoc).
    destruct (is_Exception e).
    + unfold showerror, call. fold (error_notice e).
      assert (Hend : calls (record (error_notice e) w')
                     = calls w ++ [dialog_call] ++ l ++ [error_notice e])
        by (cbn [calls record]; rewrite Hw', <- !app_assoc; reflexivity).
      destruct (fault env (error_notice e) w'); cbn [snd];
        rewrite (calls_since_app w _ _ Hend); cbn [fs record];
        intros Hin; apply Hsaved;
        (apply elem_of_app in Hin as [Hin | Hin]; [no_such_call Hin|]);
        (apply elem_of_app in Hin as [Hin | Hin]; [exact Hin | no_such_call Hin]).
    + cbn [snd]. rewrite (calls_since_app w w' _ Hw').
      intros Hin. apply Hsaved.
      apply elem_of_app in Hin as [Hin | Hin]; [no_such_call Hin | exact Hin].
Qed.

Lemma success_notice_means_saved_witness :
  success_notice (output_path_of posixpath (selected_file sample_env used_world))
    ∈ calls_since used_world
        (snd (select_file_and_transcribe posixpath script_config sample_env
                used_world))
  /\ fs (snd (select_file_and_transcribe posixpath script_config sample_env
                used_world)) !! lit "/tmp/a.txt"
     = Some (lit "[0.00 - 2.50] Hello world." ++ [LF]
               ++ lit "[2.50 - 4.12] How are you?").
Proof.
  assert (Hin : success_notice
                  (output_path_of posixpath (selected_file sample_env used_world))
                  ∈ calls_since used_world
                      (snd (select_file_and_transcribe posixpath script_config
                              sample_env used_world))).
  { apply list_elem_of_In. do 7 right. left. reflexivity. }
  split; [exact Hin|].
  destruct (success_notice_means_saved posixpath script_config sample_env
              used_world Hin) as (transcript & Hadapter & Hfile).
  injection Hadapter as <-. exact Hfile.
Defined.

(** *** Failures of the output write *)

Lemma adapter_returns_when_calm
    (cfg : Config) (env : Env) (audio_path : str) (w : World) :
  (forall c w0, is_whisper_call c = true -> fault env c w0 = None) ->
  exists transcript,
    transcribe_audio cfg env audio_path w
    = (Return transcript,
       record (call_transcribe (MODEL_NAME cfg) audio_path false)
         (record (call_load_model (MODEL_NAME cfg)) w)).
Proof.
  intros Hcalm. eexists.
  apply (transcribe_audio_answers cfg env audio_path w
           (whisper_result env (MODEL_NAME cfg) audio_path
              (record (call_load_model (MODEL_NAME cfg)) w))).
  repeat split; now apply Hcalm.
Qed.

(** X8: when [f.write] raises an [Exception] before it has written anything,
    as an encoding error does, and no other call raises, the handler shows
    the message as an error and returns, and leaves the output file empty:
    [open] has truncated it, so that what a file of that name held before is
    lost although no transcript was written. *)
Theorem write_failure_empties_output
    (os_path : PathModule) (cfg : Config) (env : Env) (w : World)
    (audio_path : str) (e : exn) :
  (forall c w0, is_write_call c = false -> fault env c w0 = None) ->
  (forall path data w0, fault env (call_write path data) w0 = Some e) ->
  is_Exception e = true ->
  selected_file env w = audio_path ->
  audio_path <> [] ->
  exists transcript,
    select_file_and_transcribe os_path cfg env w
    = (Return tt,
       {| fs := <[output_path_of os_path audio_path := []]> (fs w);
          stdout := stdout w;
          calls := calls w
                   ++ [ dialog_call;
                        wait_notice;
                        call_load_model (MODEL_NAME cfg);
                        call_transcribe (MODEL_NAME cfg) audio_path false;
                        call_open (output_path_of os_path audio_path)
                                  (lit "w") (lit "utf-8");
                        call_write (output_path_of os_path audio_path) transcript;
                        call_close (output_path_of os_path audio_path);
                        call_showerror (lit "Error") (str_exn e) ] |}).
Proof.
  intros Hcalm Hwrite Hexc Hfile Hsome.
  destruct (adapter_returns_when_calm cfg env audio_path
              (record wait_notice (record dialog_call w)))
    as (transcript & Hadapter).
  { intros c w0 Hc. apply Hcalm. now destruct c. }
  exists transcript.
  rewrite (handler_selected os_path cfg env w audio_path
             (Hcalm dialog_call _ eq_refl) Hfile Hsome).
  unfold try_except.
  rewrite (suite_write_raises os_path cfg env audio_path _ _ transcript e
             (Hcalm wait_notice _ eq_refl) Hadapter
             (Hcalm (call_open _ _ _) _ eq_refl)
             (Hwrite _ _ _) (Hcalm (call_close _) _ eq_refl)).
  rewrite Hexc. unfold showerror, call.
  rewrite (Hcalm (call_showerror _ _) _ eq_refl).
  unfold record, set_fs. cbn [fs stdout calls].
  repeat rewrite <- app_assoc. reflexivity.
Qed.

Lemma write_failure_empties_output_witness :
  (forall c w0, is_write_call c = false ->
     fault (failing_env sample_path sample_result is_write_call
              UnicodeEncodeError) c w0 = None)
  /\ is_Exception UnicodeEncodeError = true
  /\ fs used_world !! lit "/tmp/a.txt" = Some (lit "old notes")
  /\ fst (select_file_and_transcribe posixpath script_config
            (failing_env sample_path sample_result is_write_call
               UnicodeEncodeError) used_world)
     = Return tt
  /\ fs (snd (select_file_and_transcribe posixpath script_config
                (failing_env sample_path sample_result is_write_call
                   UnicodeEncodeError) used_world)) !! lit "/tmp/a.txt"
     = Some [].
Proof.
  assert (Hcalm : forall c w0, is_write_call c = false ->
            fault (failing_env sample_path sample_result is_write_call
                     UnicodeEncodeError) c w0 = None)
    by (intros c w0 Hc; simpl; now rewrite Hc).
  split; [exact Hcalm|]. split; [reflexivity|]. split; [reflexivity|].
  destruct (write_failure_empties_output posixpath script_config
              (failing_env sample_path sample_result is_write_call
                 UnicodeEncodeError)
              used_world sample_path UnicodeEncodeError)
    as (transcript & Hrun);
    [exact Hcalm | reflexivity | reflexivity | reflexivity | discriminate |].
  rewrite Hrun. split; [reflexivity|]. cbn [snd fs]. apply lookup_insert_eq.
Defined.

(** X9: when [open] raises an [Exception] and no other call raises, the
    handler shows the message as an error and returns; no file has been
    created or changed, and neither [write] nor [close] is called. *)
Theorem open_failure_changes_nothing
    (os_path : PathModule) (cfg : Config) (env : Env) (w : World)
    (audio_path : str) (e : exn) :
  (forall c w0, is_open_call c = false -> fault env c w0 = None) ->
  (forall path mode encoding w0,
      fault env (call_open path mode encoding) w0 = Some e) ->
  is_Exception e = true ->
  selected_file env w = audio_path ->
  audio_path <> [] ->
  select_file_and_transcribe os_path cfg env w
  = (Return tt,
     {| fs := fs w;
        stdout := stdout w;
        calls := calls w
                 ++ [ dialog_call;
                      wait_notice;
                      call_load_model (MODEL_NAME cfg);
                      call_transcribe (MODEL_NAME cfg) audio_path false;
                      call_open (output_path_of os_path audio_path)
                                (lit "w") (lit "utf-8");
                      call_showerror (lit "Error") (str_exn e) ] |}).
Proof.
  intros Hcalm Hopen Hexc Hfile Hsome.
  destruct (adapter_returns_when_calm cfg env audio_path
              (record wait_notice (record dialog_call w)))
    as (transcript & Hadapter).
  { intros c w0 Hc. apply Hcalm. now destruct c. }
  rewrite (handler_selected os_path cfg env w audio_path
             (Hcalm dialog_call _ eq_refl) Hfile Hsome).
  unfold try_except.
  rewrite (suite_open_raises os_path cfg env audio_path _ _ transcript e
             (Hcalm wait_notice _ eq_refl) Hadapter (Hopen _ _ _ _)).
  rewrite Hexc. unfold showerror, call.
  rewrite (Hcalm (call_showerror _ _) _ eq_refl).
  unfold record. cbn [fs stdout calls].
  repeat rewrite <- app_assoc. reflexivity.
Qed.

Lemma open_failure_changes_nothing_witness :
  (forall c w0, is_open_call c = false ->
     fault (failing_env sample_path sample_result is_open_call
              PermissionError) c w0 = None)
  /\ is_Exception PermissionError = true
  /\ fst (select_file_and_transcribe posixpath script_config
            (failing_env sample_path sample_result is_open_call
               PermissionError) used_world)
     = Return tt
  /\ fs (snd (select_file_and_transcribe posixpath script_config
                (failing_env sample_path sample_result is_open_call
                   PermissionError) used_world))
     = fs used_world.
Proof.
  assert (Hcalm : forall c w0, is_open_call c = false ->
            fault (failing_env sample_path sample_result is_open_call
                     PermissionError) c w0 = None)
    by (intros c w0 Hc; simpl; now rewrite Hc).
  split; [exact Hcalm|]. split; [reflexivity|].
  rewrite (open_failure_changes_nothing posixpath script_config
             (failing_env sample_path sample_result is_open_call
                PermissionError)
             used_world sample_path PermissionError);
    [ | exact Hcalm | reflexivity | reflexivity | reflexivity | discriminate ].
  split; reflexivity.
Defined.

Lemma handler_returns_normally_witness :
  fault (model_fails_env sample_path RuntimeError) dialog_call used_world = None
  /\ (forall c w0 e,
        fault (model_fails_env sample_path RuntimeError) c w0 = Some e ->
        is_Exception e = true)
  /\ (forall title message w0,
        fault (model_fails_env sample_path RuntimeError)
          (call_showerror title message) w0 = None)
  /\ fst (select_file_and_transcribe posixpath script_config
            (model_fails_env sample_path RuntimeError) used_world)
     = Return tt.
Proof.
  assert (Hexc : forall c w0 e,
            fault (model_fails_env sample_path RuntimeError) c w0 = Some e ->
            is_Exception e = true).
  { intros c w0 e. destruct c; simpl; intros [= <-]. reflexivity. }
  split; [reflexivity|]. split; [exact Hexc|]. split; [reflexivity|].
  apply (handler_returns_normally posixpath script_config
           (model_fails_env sample_path RuntimeError) used_world);
    [reflexivity | exact Hexc | reflexivity].
Defined.

(** *** One transcription for one selection *)

Lemma filter_whisper_none (l : list Call) :
  Forall (fun c => is_whisper_call c = false) l ->
  filter (fun c => is_whisper_call c = true) l = [].
Proof.
  induction 1 as [|c l Hc _ IH]; [reflexivity|].
  rewrite filter_cons. destruct (decide (is_whisper_call c = true)); [congruence|].
  exact IH.
Qed.

Lemma filter_whisper_all (l : list Call) :
  Forall (fun c => is_whisper_call c = true) l ->
  filter (fun c => is_whisper_call c = true) l = l.
Proof.
  induction 1 as [|c l Hc _ IH]; [reflexivity|].
  rewrite filter_cons. destruct (decide (is_whisper_call c = true)); [|congruence].
  now rewrite IH.
Qed.

(** The calls of the adapter: the load, and the transcription if the load
    returned. *)
Lemma transcribe_audio_calls
    (cfg : Config) (env : Env) (audio_path : str) (w : World) :
  exists new,
    calls (snd (transcribe_audio cfg env audio_path w)) = calls w ++ new
    /\ (new = [call_load_model (MODEL_NAME cfg)]
        \/ new = [call_load_model (MODEL_NAME cfg);
                  call_transcribe (MODEL_NAME cfg) audio_path false]).
Proof.
  unfold_script.
  destruct (fault env (call_load_model (MODEL_NAME cfg)) w).
  { eexists. split; [reflexivity | now left]. }
  cbv beta iota.
  destruct (fault env (call_transcribe _ _ _) _);
    [|repeat case_match];
    (eexists; split; [cbn [snd calls record]; rewrite <- app_assoc; reflexivity
                     | now right]).
Qed.

Lemma suite_whisper_calls
    (os_path : PathModule) (cfg : Config) (env : Env) (audio_path : str)
    (w1 : World) :
  exists l,
    calls (snd (try_suite os_path cfg env audio_path w1)) = calls w1 ++ l
    /\ (filter (fun c => is_whisper_call c = true) l = []
        \/ filter (fun c => is_whisper_call c = true) l
           = [call_load_model (MODEL_NAME cfg)]
        \/ filter (fun c => is_whisper_call c = true) l
           = [call_load_model (MODEL_NAME cfg);
              call_transcribe (MODEL_NAME cfg) audio_path false]).
Proof.
  destruct (fault env wait_notice w1) as [e|] eqn:Hwait.
  { rewrite (suite_wait_raises os_path cfg env audio_path w1 e Hwait).
    exists [wait_notice]. split; [reflexivity | now left]. }
  destruct (transcribe_audio_calls cfg env audio_path (record wait_notice w1))
    as (new & Hnew & Hshape).
  assert (Hwhisper : Forall (fun c => is_whisper_call c = true) new)
    by (destruct Hshape as [-> | ->]; now repeat constructor).
  destruct (transcribe_audio cfg env audio_path (record wait_notice w1))
    as [[transcript|e] w3] eqn:Hadapter; cbn [snd] in Hnew.
  - rewrite (suite_after_adapter os_path cfg env audio_path w1 w3 transcript
               Hwait Hadapter).
    destruct (save_then_notice env (output_path_of os_path audio_path)
                transcript (lit "Success")
                (lit "Transcription saved to:" ++ [LF]
                 ++ output_path_of os_path audio_path) w3)
      as (l & Hcalls & Hnone & _).
    exists ([wait_notice] ++ new ++ l). split.
    + rewrite Hcalls, Hnew. cbn [calls record]. now rewrite <- !app_assoc.
    + rewrite !filter_app, (filter_whisper_none l Hnone),
        (filter_whisper_all new Hwhisper), app_nil_r.
      right. exact Hshape.
  - rewrite (suite_adapter_raises os_path cfg env audio_path w1 w3 e
               Hwait Hadapter).
    exists ([wait_notice] ++ new). split.
    + cbn [snd]. rewrite Hnew. cbn [calls record]. now rewrite <- !app_assoc.
    + rewrite filter_app, (filter_whisper_all new Hwhisper).
      right. exact Hshape.
Qed.

(** X11: a run of the handler loads the model at most once and hands at
    most one file to it, the selected one, with the configured model and
    [verbose=False]; when the dialog is cancelled or raises, whisper is not
    called at all. *)
Theorem handler_transcribes_once
    (os_path : PathModule) (cfg : Config) (env : Env) (w : World) :
  (filter (fun c => is_whisper_call c = true)
     (calls_since w (snd (select_file_and_transcribe os_path cfg env w)))
   = []
   \/ filter (fun c => is_whisper_call c = true)
        (calls_since w (snd (select_file_and_transcribe os_path cfg env w)))
      = [call_load_model (MODEL_NAME cfg)]
   \/ filter (fun c => is_whisper_call c = true)
        (calls_since w (snd (select_file_and_transcribe os_path cfg env w)))
      = [call_load_model (MODEL_NAME cfg);
         call_transcribe (MODEL_NAME cfg) (selected_file env w) false])
  /\ (fault env dialog_call w <> None \/ selected_file env w = [] ->
      filter (fun c => is_whisper_call c = true)
        (calls_since w (snd (select_file_and_transcribe os_path cfg env w)))
      = []).
Proof.
  destruct (fault env dialog_call w) as [e|] eqn:Hdialog.
  { rewrite (handler_dialog_raises os_path cfg env w e Hdialog). cbn [snd].
    rewrite (calls_since_app w _ [dialog_call]) by reflexivity.
    split; [now left | reflexivity]. }
  destruct (selected_file env w) as [|c audio_path] eqn:Hfile.
  { rewrite (handler_cancelled os_path cfg env w Hdialog Hfile). cbn [snd].
    rewrite (calls_since_app w _ [dialog_call]) by reflexivity.
    split; [now left | reflexivity]. }
  split; [|intros [H | H]; congruence].
  rewrite (handler_selected os_path cfg env w (c :: audio_path) Hdialog Hfile)
    by discriminate.
  destruct (suite_whisper_calls os_path cfg env (c :: audio_path)
              (record dialog_call w)) as (l & Hcalls & Hshape).
  unfold try_except.
  destruct (try_suite os_path cfg env (c :: audio_path) (record dialog_call w))
    as [[[]|e] w'] eqn:Hrun; cbn [snd] in *.
  - assert (Hw' : calls w' = calls w ++ [dialog_call] ++ l)
      by (rewrite Hcalls; cbn [calls record]; now rewrite <- app_assoc).
    rewrite (calls_since_app w w' _ Hw'). exact Hshape.
  - assert (Hw' : calls w' = calls w ++ [dialog_call] ++ l)
      by (rewrite Hcalls; cbn [calls record]; now rewrite <- app_assoc).
    destruct (is_Exception e).
    + unfold showerror, call. fold (error_notice e).
      assert (Hend : calls (record (error_notice e) w')
                     = calls w ++ [dialog_call] ++ l ++ [error_notice e])
        by (cbn [calls record]; rewrite Hw', <- !app_assoc; reflexivity).
      destruct (fault env (error_notice e) w'); cbn [snd];
        rewrite (calls_since_app w _ _ Hend);
        change ([dialog_call] ++ l ++ [error_notice e])
          with (dialog_call :: (l ++ [error_notice e]));
        rewrite filter_cons, filter_app; cbn; rewrite app_nil_r; exact Hshape.
    + cbn [snd]. rewrite (calls_since_app w w' _ Hw'). exact Hshape.
Qed.

Lemma handler_transcribes_once_witness :
  selected_file (calm_env [] sample_result) used_world = []
  /\ filter (fun c => is_whisper_call c = true)
       (calls_since used_world
          (snd (select_file_and_transcribe posixpath script_config
                  (calm_env [] sample_result) used_world)))
     = []
  /\ filter (fun c => is_whisper_call c = true)
       (calls_since used_world
          (snd (select_file_and_transcribe posixpath script_config
                  sample_env used_world)))
     = [call_load_model (lit "turbo");
        call_transcribe (lit "turbo") sample_path false].
Proof.
  split; [reflexivity|]. split.
  - apply (handler_transcribes_once posixpath script_config
             (calm_env [] sample_result) used_world).
    now right.
  - reflexivity.
Defined.

(** * Further properties of [main] *)








(** * Exceptions that the handler lets through *)

(** X14: the handler does not catch an exception of the file dialog, which
    is called before the [try] statement, nor an exception of the [try] suite
    that is no [Exception], such as [KeyboardInterrupt]: both leave the
    handler as they are, and no error notice is called for them. *)
Theorem uncaught_exceptions_propagate
    (os_path : PathModule) (cfg : Config) (env : Env) (w : World) :
  (forall e,
      fault env dialog_call w = Some e ->
      select_file_and_transcribe os_path cfg env w
      = (Raise e, record dialog_call w))
  /\ (forall e w',
        fault env dialog_call w = None ->
        selected_file env w <> [] ->
        try_suite os_path cfg env (selected_file env w) (record dialog_call w)
        = (Raise e, w') ->
        is_Exception e = false ->
        select_file_and_transcribe os_path cfg env w = (Raise e, w')).
Proof.
  split.
  - intros e Hdialog. now apply handler_dialog_raises.
  - intros e w' Hdialog Hsome Hraise Hbase.
    rewrite (handler_selected os_path cfg env w (selected_file env w)
               Hdialog eq_refl Hsome).
    unfold try_except. now rewrite Hraise, Hbase.
Qed.

Lemma uncaught_exceptions_propagate_witness :
  fault (dialog_fails_env TclError) dialog_call used_world = Some TclError
  /\ select_file_and_transcribe posixpath script_config
       (dialog_fails_env TclError) used_world
     = (Raise TclError, record dialog_call used_world)
  /\ fault (model_fails_env sample_path KeyboardInterrupt) dialog_call used_world
     = None
  /\ selected_file (model_fails_env sample_path KeyboardInterrupt) used_world
     <> []
  /\ is_Exception KeyboardInterrupt = false
  /\ fst (select_file_and_transcribe posixpath script_config
            (model_fails_env sample_path KeyboardInterrupt) used_world)
     = Raise KeyboardInterrupt.
Proof.
  split; [reflexivity|]. split.
  { destruct (uncaught_exceptions_propagate posixpath script_config
                (dialog_fails_env TclError) used_world) as [Hdialog _].
    apply Hdialog. reflexivity. }
  split; [reflexivity|]. split; [discriminate|]. split; [reflexivity|].
  destruct (uncaught_exceptions_propagate posixpath script_config
              (model_fails_env sample_path KeyboardInterrupt) used_world)
    as [_ Hbase].
  erewrite Hbase; [reflexivity | reflexivity | discriminate | reflexivity
                   | reflexivity].
Defined.
